(** * rust-ai-tool: the Python binding layer and the fix-application engine

    Two developments live in this file.

    - [PythonApi] is a shallow embedding of [src/bindings/python_api.py]:
      the [RustAiTool] wrapper that marshals arguments, writes one
      temporary fixes file, spawns the Rust binary and parses its standard
      output.  The interpreter's world (files, console, the events the
      wrapper performs) is threaded explicitly; what lies outside the file
      (the spawned binary, the encoding of the locale, [json.loads], the
      name picked by [tempfile]) is the [Runtime] interface.

    - [FixEngine] is the engine on the other side of the process boundary
      (patch model, conflict detector, validator, backup manager, apply
      engine).  Its code is not part of the binding, so its definitions
      follow the design document section by section. *)

From stdpp Require Import gmap strings list sorting pretty.

Set Warnings "-register-all".

Local Open Scope string_scope.
Local Open Scope list_scope.

(** ** Part I: [src/bindings/python_api.py] *)

Module PythonApi.

(** *** Values *)

(** The Python values that can sit in a [Dict[str, Any]]: the JSON-shaped
    ones and [bytes], which [json.dump] refuses. *)
Inductive pyval : Type :=
  | PyNone
  | PyBool (b : bool)
  | PyInt (z : Z)
  | PyStr (s : string)
  | PyList (l : list pyval)
  | PyDict (d : list (string * pyval))
  | PyBytes (b : string).

(** [fixes: Union[str, Dict[str, Any]]] *)
Inductive fixes_arg : Type :=
  | FixesStr (s : string)
  | FixesDict (d : list (string * pyval)).

(** What the default [JSONEncoder] accepts. *)
Fixpoint serializable (v : pyval) : bool :=
  match v with
  | PyNone | PyBool _ | PyInt _ | PyStr _ => true
  | PyList l => forallb serializable l
  | PyDict d => forallb (λ kv, serializable kv.2) d
  | PyBytes _ => false
  end.

(** *** Exceptions and results *)

Inductive exn : Type :=
  | RuntimeError (msg : string)
  | CalledProcessError (returncode : Z) (out err : string)
  | JSONDecodeError (doc : string)
  | TypeError (msg : string)
  | FileNotFoundError (path : string)
  | OSError (msg : string)
  | AttributeError (msg : string)
  | UnicodeDecodeError (raw : string)
  | UnicodeEncodeError (text : string)
  | ValueError (msg : string).

Inductive result (A : Type) : Type :=
  | Return (a : A)
  | Raise (e : exn).
Global Arguments Return {A} a.
Global Arguments Raise {A} e.

(** *** The interpreter's world *)

(** Why [Popen] cannot start a process: there is no such binary, the
    system refuses for another reason (no permission, not an executable),
    or an argument holds a NUL. *)
Inductive start_failure : Type :=
  | NoSuchFile (path : string)
  | Refused (msg : string)
  | EmbeddedNull.

(** What it raises then. *)
Definition start_exn (f : start_failure) : exn :=
  match f with
  | NoSuchFile path => FileNotFoundError path
  | Refused msg => OSError msg
  | EmbeddedNull => ValueError "embedded null byte"
  end.

(** [subprocess.CompletedProcess] with [capture_output=True]: the exit
    status and the two captured outputs, as bytes when they come from the
    process, as text once [text=True] has decoded them. *)
Record CompletedProcess : Type := {
  returncode : Z;
  stdout : string;
  stderr : string;
}.

(** What the wrapper itself does to its environment, in program order. *)
Inductive event : Type :=
  | EvCreate (path : string)
  | EvWrite (path text : string)
  | EvUnlink (path : string)
  | EvSpawn (cmd : list string) (input : option string)
  | EvPrint (line : string).

Record World : Type := {
  files : gmap string string;
  events : list event;
}.

Definition set_files (fs : gmap string string) (w : World) : World :=
  {| files := fs; events := events w |}.
Definition emit (e : event) (w : World) : World :=
  {| files := files w; events := events w ++ [e] |}.

(** The file-system events among a run's events. *)
Definition is_fs_event (e : event) : bool :=
  match e with
  | EvCreate _ | EvWrite _ _ | EvUnlink _ => true
  | EvSpawn _ _ | EvPrint _ => false
  end.

(** The paths an event writes, creates or removes. *)
Definition touches (e : event) : list string :=
  match e with
  | EvCreate p | EvWrite p _ | EvUnlink p => [p]
  | EvSpawn _ _ | EvPrint _ => []
  end.

(** *** What lies outside the file *)

Class Runtime : Type := {
  (** The spawned binary: from the command line, the standard input and the
      files it finds, either it runs to an exit status, with the bytes it
      wrote to its two outputs, or there is none ([None]: the binary
      cannot be started); it may rewrite any file. *)
  spawn : list string → option string → gmap string string →
          option CompletedProcess * gmap string string;
  (** Why the process cannot be started, when it cannot. *)
  start_error : list string → gmap string string → start_failure;
  (** The binary started on an open pipe and killed before anything was
      written to it: the files it leaves, [None] when it cannot be
      started. *)
  spawn_killed : list string → gmap string string → option (gmap string string);
  (** Whether the platform is POSIX (not Windows). *)
  posix : bool;
  (** [text=True]: the captured bytes decoded in the locale's encoding,
      newlines translated; [None] when they do not decode. *)
  decode : string → option string;
  (** [s.encode("utf-8")]; [None] for a text that holds a lone
      surrogate. *)
  encode_utf8 : string → option string;
  (** Whether the locale's encoding can encode a text written to a file
      opened with [mode='w']. *)
  encodable : string → bool;
  (** [json.loads], [None] for a [JSONDecodeError]. *)
  json_loads : string → option pyval;
  (** The text [json.dump] writes for a serialisable value, and the part
      already written when it gives up on one that is not. *)
  json_text : pyval → string;
  json_partial : pyval → string;
  (** The directory and the random part [tempfile] picks. *)
  gettempdir : string;
  random_name : gmap string string → string;
  (** [NamedTemporaryFile] opens with [O_EXCL]: the name is not in use. *)
  random_name_fresh : ∀ fs,
    fs !! (gettempdir +:+ "/tmp" +:+ random_name fs +:+ ".json") = None;
}.

(** *** A state-and-exception monad *)

Definition M (A : Type) : Type := World → result A * World.

Definition ret {A} (a : A) : M A := λ w, (Return a, w).
Definition raise {A} (e : exn) : M A := λ w, (Raise e, w).
Definition bind {A B} (m : M A) (k : A → M B) : M B := λ w,
  match m w with
  | (Return a, w') => k a w'
  | (Raise e, w') => (Raise e, w')
  end.
Definition tell (e : event) : M unit := λ w, (Return tt, emit e w).

(** [try: body finally: cleanup] *)
Definition try_finally {A} (body : M A) (cleanup : M unit) : M A := λ w,
  let '(r, w1) := body w in
  match cleanup w1 with
  | (Return _, w2) => (r, w2)
  | (Raise e, w2) => (Raise e, w2)
  end.

(** [try: body except CalledProcessError as e: handler] *)
Definition try_except_CalledProcessError {A} (body : M A)
    (handler : Z → string → string → M A) : M A := λ w,
  match body w with
  | (Raise (CalledProcessError rc out err), w') => handler rc out err w'
  | other => other
  end.

Declare Scope py_scope.
Delimit Scope py_scope with py.
Notation "'let*' x ':=' m 'in' k" := (bind m (λ x, k))
  (at level 10, x name, m at level 100, k at level 200) : py_scope.
Notation "'exec' m 'in' k" := (bind m (λ _, k))
  (at level 10, m at level 100, k at level 200) : py_scope.
Local Open Scope py_scope.

(** *** Library calls *)

Section library.
Context `{Runtime}.

(** [print(line)] *)
Definition print (line : string) : M unit := tell (EvPrint line).

(** [" ".join(cmd)] *)
Fixpoint join (sep : string) (l : list string) : string :=
  match l with
  | [] => ""
  | [s] => s
  | s :: rest => s +:+ sep +:+ join sep rest
  end.

(** What [communicate] raises when handed bytes while [text=True]: on
    POSIX it calls [encode] on them, on Windows it writes them to a pipe
    that takes text. *)
Definition bytes_input_error : exn :=
  if posix then AttributeError "'bytes' object has no attribute 'encode'"
  else TypeError "write() argument must be str, not bytes".

(** [subprocess.run(cmd, input=..., capture_output=True, text=True,
    check=True)], [input] being [None] or bytes.  Bytes do not go with
    [text=True]: the process is started, [communicate] raises before
    anything is written to it, and [run] kills the process.  Without
    input the process runs to its exit status; both outputs are decoded,
    which may fail, before the status is looked at. *)
Definition subprocess_run (cmd : list string) (input : option string)
    : M CompletedProcess := λ w,
  let w := emit (EvSpawn cmd input) w in
  match input with
  | Some _ =>
      match spawn_killed cmd (files w) with
      | None => (Raise (start_exn (start_error cmd (files w))), w)
      | Some fs => (Raise bytes_input_error, set_files fs w)
      end
  | None =>
      match spawn cmd None (files w) with
      | (None, fs) => (Raise (start_exn (start_error cmd (files w))), set_files fs w)
      | (Some p, fs) =>
          match decode (stdout p), decode (stderr p) with
          | Some out, Some err =>
              if (returncode p =? 0)%Z
              then (Return {| returncode := returncode p;
                              stdout := out; stderr := err |}, set_files fs w)
              else (Raise (CalledProcessError (returncode p) out err),
                    set_files fs w)
          | None, _ => (Raise (UnicodeDecodeError (stdout p)), set_files fs w)
          | Some _, None => (Raise (UnicodeDecodeError (stderr p)), set_files fs w)
          end
      end
  end.

(** [json.loads(doc)] *)
Definition loads (doc : string) : M pyval :=
  match json_loads doc with
  | Some v => ret v
  | None => raise (JSONDecodeError doc)
  end.

(** [tempfile.NamedTemporaryFile(mode='w', suffix='.json', delete=False)]:
    a new empty file; the result is [f.name]. *)
Definition NamedTemporaryFile_json : M string := λ w,
  let name := gettempdir +:+ "/tmp" +:+ random_name (files w) +:+ ".json" in
  (Return name, emit (EvCreate name) (set_files (<[name := ""]> (files w)) w)).

(** [f.write(text)] followed, at the end of the [with], by the flush. *)
Definition file_write (name text : string) : M unit := λ w,
  (Return tt, emit (EvWrite name text) (set_files (<[name := text]> (files w)) w)).

(** [f.write(text)] for a text of the caller's: nothing reaches the file
    when the text cannot be encoded. *)
Definition write_text (name text : string) : M unit :=
  if encodable text
  then file_write name text
  else (exec file_write name "" in raise (UnicodeEncodeError text)).

(** [json.dump(obj, f)] *)
Definition json_dump (obj : pyval) (name : string) : M unit :=
  if serializable obj
  then file_write name (json_text obj)
  else (exec file_write name (json_partial obj) in
        raise (TypeError "Object is not JSON serializable")).

(** [os.unlink(path)] *)
Definition os_unlink (path : string) : M unit := λ w,
  match files w !! path with
  | Some _ => (Return tt, emit (EvUnlink path) (set_files (delete path (files w)) w))
  | None => (Raise (FileNotFoundError path), w)
  end.
End library.

(** *** [class RustAiTool] *)

Record RustAiTool : Type := {
  rust_binary_path : string;
  config_path : string;
}.

Section methods.
Context `{Runtime}.

(** [_run_command(self, args, input_data=None)] *)
Definition _run_command (self : RustAiTool) (args : list string)
    (input_data : option string) : M string :=
  let cmd := [rust_binary_path self; "--config"; config_path self] ++ args in
  exec print ("Running command: " +:+ join " " cmd) in
  try_except_CalledProcessError
    (let* input :=
       match input_data with
       | Some s =>
           if decide (s = "") then ret None
           else match encode_utf8 s with
                | Some bytes => ret (Some bytes)
                | None => raise (UnicodeEncodeError s)
                end
       | None => ret None
       end in
     let* result := subprocess_run cmd input in
     ret (stdout result))
    (λ rc out err,
       let error_message := if decide (err = "") then out else err in
       raise (RuntimeError ("Command failed with exit code " +:+ pretty rc
                            +:+ ": " +:+ error_message))).

(** [analyze_project(self, project_path, output_format="json")] *)
Definition analyze_project (self : RustAiTool) (project_path : string)
    (output_format : option string) : M pyval :=
  let output_format := default "json" output_format in
  let args := ["analyze"; project_path; "--output"; output_format] in
  let* output := _run_command self args None in
  if decide (output_format = "json")
  then loads output
  else ret (PyDict [("output", PyStr output)]).

(** The [with tempfile.NamedTemporaryFile(...) as f:] block shared, word
    for word, by [validate_fixes], [apply_fixes] and [create_github_pr];
    its value is [fixes_path]. *)
Definition write_fixes_file (fixes : fixes_arg) : M string :=
  let* f := NamedTemporaryFile_json in
  exec (match fixes with
        | FixesDict d => json_dump (PyDict d) f
        | FixesStr s => write_text f s
        end) in
  ret f.

Definition validate_fixes_args (project_path fixes_path : string) : list string :=
  ["validate"; project_path; "--fixes"; fixes_path].

(** [validate_fixes(self, project_path, fixes)] *)
Definition validate_fixes (self : RustAiTool) (project_path : string)
    (fixes : fixes_arg) : M pyval :=
  let* fixes_path := write_fixes_file fixes in
  try_finally
    (let args := validate_fixes_args project_path fixes_path in
     let* output := _run_command self args None in
     loads output)
    (os_unlink fixes_path).

Definition apply_fixes_args (project_path fixes_path : string)
    (create_backup : bool) : list string :=
  let args := ["apply"; project_path; "--fixes"; fixes_path] in
  if create_backup then args ++ ["--backup"] else args.

(** [apply_fixes(self, project_path, fixes, create_backup=True)] *)
Definition apply_fixes (self : RustAiTool) (project_path : string)
    (fixes : fixes_arg) (create_backup : option bool) : M pyval :=
  let create_backup := default true create_backup in
  let* fixes_path := write_fixes_file fixes in
  try_finally
    (let args := apply_fixes_args project_path fixes_path create_backup in
     let* output := _run_command self args None in
     loads output)
    (os_unlink fixes_path).

(** [generate_project(self, description, output_dir, name)] *)
Definition generate_project (self : RustAiTool)
    (description output_dir name : string) : M pyval :=
  let args := ["generate"; "--description"; description;
               "--output"; output_dir; "--name"; name] in
  let* output := _run_command self args None in
  loads output.

Definition create_github_pr_args (owner repo branch title fixes_path : string)
    : list string :=
  ["github"; "create-pr"; "--owner"; owner; "--repo"; repo;
   "--branch"; branch; "--title"; title; "--fixes"; fixes_path].

(** [create_github_pr(self, owner, repo, branch, title, fixes)] *)
Definition create_github_pr (self : RustAiTool)
    (owner repo branch title : string) (fixes : fixes_arg) : M pyval :=
  let* fixes_path := write_fixes_file fixes in
  try_finally
    (let args := create_github_pr_args owner repo branch title fixes_path in
     let* output := _run_command self args None in
     loads output)
    (os_unlink fixes_path).

(** [analyze_github_repo(self, owner, repo, branch="main")] *)
Definition analyze_github_repo (self : RustAiTool)
    (owner repo : string) (branch : option string) : M pyval :=
  let branch := default "main" branch in
  let args := ["github"; "analyze"; "--owner"; owner; "--repo"; repo;
               "--branch"; branch] in
  let* output := _run_command self args None in
  loads output.
End methods.

(** *** Vocabulary of the statements *)

(** Whether a string holds a slash. *)
Fixpoint has_slash (s : string) : bool :=
  match s with
  | EmptyString => false
  | String ch s' => bool_decide (String ch "" = "/") || has_slash s'
  end.

Section vocabulary.
Context `{Runtime}.

(** The name [NamedTemporaryFile] picks when the files are [fs]. *)
Definition tmp_name (fs : gmap string string) : string :=
  gettempdir +:+ "/tmp" +:+ random_name fs +:+ ".json".

(** [cmd] in [_run_command]. *)
Definition command_line (self : RustAiTool) (args : list string) : list string :=
  [rust_binary_path self; "--config"; config_path self] ++ args.

(** Whether the [with] block that writes the fixes runs to its end. *)
Definition fixes_ok (fixes : fixes_arg) : bool :=
  match fixes with
  | FixesStr s => encodable s
  | FixesDict d => serializable (PyDict d)
  end.

(** What the fixes file holds when the [with] block is left. *)
Definition fixes_text (fixes : fixes_arg) : string :=
  match fixes with
  | FixesStr s => if encodable s then s else ""
  | FixesDict d =>
      if serializable (PyDict d) then json_text (PyDict d)
      else json_partial (PyDict d)
  end.

(** What the [with] block raises when it does not. *)
Definition fixes_error (fixes : fixes_arg) : exn :=
  match fixes with
  | FixesStr s => UnicodeEncodeError s
  | FixesDict _ => TypeError "Object is not JSON serializable"
  end.

(** The message of the [RuntimeError] raised by [_run_command]. *)
Definition failure_message (p : CompletedProcess) : string :=
  "Command failed with exit code " +:+ pretty (returncode p) +:+ ": " +:+
  (if decide (stderr p = "") then stdout p else stderr p).

(** What [_run_command] makes, without input, of the outcome of the
    process spawned as [cmd] on the files [fs]. *)
Definition command_result (cmd : list string) (fs : gmap string string)
    (o : option CompletedProcess) : result string :=
  match o with
  | None => Raise (start_exn (start_error cmd fs))
  | Some p =>
      match decode (stdout p), decode (stderr p) with
      | Some out, Some err =>
          if (returncode p =? 0)%Z then Return out
          else Raise (RuntimeError
                        (failure_message {| returncode := returncode p;
                                            stdout := out; stderr := err |}))
      | None, _ => Raise (UnicodeDecodeError (stdout p))
      | Some _, None => Raise (UnicodeDecodeError (stderr p))
      end
  end.

(** The process spawned as [cmd], without input, on the files [fs] exits
    with status 0 and leaves the files [fs']; its two outputs decode, the
    standard output as [out]. *)
Definition succeeds (cmd : list string) (fs : gmap string string)
    (out : string) (fs' : gmap string string) : Prop :=
  ∃ p, spawn cmd None fs = (Some p, fs') ∧ returncode p = 0%Z ∧
       decode (stdout p) = Some out ∧ is_Some (decode (stderr p)).

(** The value of [json.loads(out)]. *)
Definition parse (out : string) : result pyval :=
  match json_loads out with
  | Some v => Return v
  | None => Raise (JSONDecodeError out)
  end.

Definition parsed (r : result string) : result pyval :=
  match r with
  | Return out => parse out
  | Raise e => Raise e
  end.

(** The [input_data] that counts as one: [None] and the empty string are
    both falsy in [input_data.encode("utf-8") if input_data else None]. *)
Definition stdin_of (input_data : option string) : option string :=
  match input_data with
  | Some s => if decide (s = "") then None else Some s
  | None => None
  end.

(** The command lines of the processes spawned among some events. *)
Definition spawned (evs : list event) : list (list string) :=
  omap (λ e, match e with EvSpawn cmd _ => Some cmd | _ => None end) evs.

(** What [m], a method that hands the fixes to [mk_args], does to the
    files from the world [w]: its own file-system events concern the
    fixes file alone, first created and written, last removed; and the
    files it leaves are those the spawned process leaves, less the fixes
    file. *)
Definition only_fixes_file_effects (m : M pyval) (self : RustAiTool)
    (mk_args : string → list string) (fixes : fixes_arg) (w : World) : Prop :=
  let name := tmp_name (files w) in
  let text := fixes_text fixes in
  ∃ new,
    events (m w).2 = events w ++ new ∧
    Forall (λ e, ∀ q, q ∈ touches e → q = name) new ∧
    (filter (λ e, is_fs_event e = true) new =
       [EvCreate name; EvWrite name text; EvUnlink name] ∨
     filter (λ e, is_fs_event e = true) new =
       [EvCreate name; EvWrite name text]) ∧
    files (m w).2 =
      if fixes_ok fixes
      then delete name
             (spawn (command_line self (mk_args name)) None
                    (<[name := text]> (files w))).2
      else <[name := text]> (files w).

(** The three methods that go through a fixes file, as one. *)
Definition with_fixes_file (self : RustAiTool) (mk_args : string → list string)
    (fixes : fixes_arg) : M pyval :=
  let* fixes_path := write_fixes_file fixes in
  try_finally
    (let* output := _run_command self (mk_args fixes_path) None in loads output)
    (os_unlink fixes_path).
End vocabulary.

End PythonApi.

(** ** Part II: the fix-application engine *)

Module FixEngine.

Local Open Scope nat_scope.

(** *** Patch model *)

(** Modelled from the spec: the engine is not part of the binding layer.
    A file is its list of lines; offsets count lines from 0.  A span is
    either a line range [[start, stop)] or a context anchor, a snippet of
    surrounding lines plus an offset from where the snippet is found. *)
Inductive span : Type :=
  | LineRange (start stop : nat)
  | ContextAnchor (snippet : list string) (offset : nat).

(** Modelled from the spec: an Edit, a single proposed change to one file
    (data model, section 3). *)
Record Edit : Type := {
  file_path : string;
  edit_span : span;
  original_text : list string;
  replacement_text : list string;
  edit_id : string;
}.

(** Modelled from the spec: a FixSet, a named, ordered collection of
    Edits. *)
Record FixSet : Type := {
  fixset_id : string;
  edits : list Edit;
}.

(** Modelled from the spec: spans and edits are pure value types
    (section 4.1), compared field by field. *)
Global Instance span_eq_dec : EqDecision span.
Proof. solve_decision. Defined.
Global Instance Edit_eq_dec : EqDecision Edit.
Proof. solve_decision. Defined.

(** Modelled from the spec: the error taxonomy of section 7, as far as
    validation reports it. *)
Inductive issue : Type :=
  | MissingFileError (file : string)
  | StaleEdit (id : string)
  | OverlapConflict (edit_i edit_j : Edit)
  | AmbiguousAnchor (id : string)
  | SemanticCheckFailed (file message : string).

(** Modelled from the spec: where a span lands in the current content.
    A context anchor must be found exactly once (section 4.1): nowhere is
    the StaleEdit condition, more than once the AmbiguousAnchor one. *)
Inductive location : Type :=
  | Located (start stop : nat)
  | NoMatch
  | Ambiguous.

(** Modelled from the spec: the lines at which [snippet] occurs in [c],
    counted from [i]. *)
Fixpoint occurrences (snippet c : list string) (i : nat) : list nat :=
  (if decide (take (length snippet) c = snippet) then [i] else []) ++
  match c with
  | [] => []
  | _ :: c' => occurrences snippet c' (S i)
  end.

(** Modelled from the spec: anchor resolution, a pure function returning
    a resolved offset or a typed failure (design notes, section 9). *)
Definition resolve (c : list string) (e : Edit) : location :=
  match edit_span e with
  | LineRange a b => Located a b
  | ContextAnchor snippet off =>
      match occurrences snippet c 0 with
      | [] => NoMatch
      | [i] => Located (i + off) (i + off + length (original_text e))
      | _ => Ambiguous
      end
  end.

(** Modelled from the spec: an edit together with its resolved span. *)
Record placed : Type := {
  p_start : nat;
  p_stop : nat;
  p_edit : Edit;
}.

(** Modelled from the spec: the resolved span of an edit, when it has
    one. *)
Definition place (c : list string) (e : Edit) : option placed :=
  match resolve c e with
  | Located a b => Some {| p_start := a; p_stop := b; p_edit := e |}
  | NoMatch | Ambiguous => None
  end.

(** *** Conflict detector (section 4.2) *)

(** Modelled from the spec: "within each file sort edits by resolved start
    offset", by insertion from the right, so that edits with the same
    start keep the order they have in the FixSet. *)
Fixpoint insert_by_start (x : placed) (l : list placed) : list placed :=
  match l with
  | [] => [x]
  | y :: l' =>
      if decide (p_start x ≤ p_start y) then x :: y :: l'
      else y :: insert_by_start x l'
  end.

(** Modelled from the spec: the sort itself, each edit inserted into the
    sorted rest of the list. *)
Definition sort_by_start (l : list placed) : list placed :=
  foldr insert_by_start [] l.

(** Modelled from the spec: "walk adjacent pairs: if edit[i].end >
    edit[i+1].start, report OverlapConflict(edit_i, edit_j)". *)
Fixpoint walk_pairs (l : list placed) : list issue :=
  match l with
  | x :: l' =>
      match l' with
      | y :: _ =>
          if decide (p_start y < p_stop x)
          then OverlapConflict (p_edit x) (p_edit y) :: walk_pairs l'
          else walk_pairs l'
      | [] => []
      end
  | [] => []
  end.

(** Modelled from the spec: [original_text] is what the file holds at the
    resolved span. *)
Definition matches_at (c : list string) (a b : nat) (original : list string) : bool :=
  bool_decide (a ≤ b ∧ b ≤ length c ∧ take (b - a) (drop a c) = original).

(** Modelled from the spec: "independently, for every edit, recompute its
    span against current content; if original_text no longer matches at
    the resolved location, report StaleEdit(edit_id)". *)
Definition staleness (c : list string) (e : Edit) : list issue :=
  match resolve c e with
  | Located a b =>
      if matches_at c a b (original_text e) then [] else [StaleEdit (edit_id e)]
  | NoMatch => [StaleEdit (edit_id e)]
  | Ambiguous => [AmbiguousAnchor (edit_id e)]
  end.

(** Modelled from the spec: the conflicts of one file, for the edits that
    target it, in FixSet order. *)
Definition detect_file (c : list string) (es : list Edit) : list issue :=
  walk_pairs (sort_by_start (omap (place c) es)) ++ flat_map (staleness c) es.

(** Modelled from the spec: "group edits by file". *)
Definition edits_of (p : string) (fs : FixSet) : list Edit :=
  filter (λ e, file_path e = p) (edits fs).

(** Modelled from the spec: the order on paths in which files are walked
    and mutated ("sorted by path"). *)
Definition path_le (p q : string) : Prop := String.leb p q = true.

(** Modelled from the spec: that order is decided by comparing the two
    paths. *)
Global Instance path_le_dec : RelDecision path_le.
Proof. intros p q. unfold path_le. apply _. Defined.

(** Modelled from the spec: the files a FixSet touches, each once, sorted
    by path. *)
Definition touched (fs : FixSet) : list string :=
  merge_sort path_le (remove_dups (file_path <$> edits fs)).

(** Modelled from the spec: a ProjectSnapshot, the files relevant to a
    FixSet with the content captured at validation start. *)
Abbreviation ProjectSnapshot := (gmap string (list string)).

(** Modelled from the spec: the Conflict Detector on one file of the
    snapshot; a file the snapshot lacks has no content to resolve against
    (it is the Validator's MissingFileError). *)
Definition file_conflicts (snapshot : ProjectSnapshot) (fs : FixSet) (p : string)
    : list issue :=
  match snapshot !! p with
  | Some c => detect_file c (edits_of p fs)
  | None => []
  end.

(** Modelled from the spec: the Conflict Detector's output, "an ordered
    list of conflicts (empty = clean)". *)
Definition detect_conflicts (snapshot : ProjectSnapshot) (fs : FixSet) : list issue :=
  flat_map (file_conflicts snapshot fs) (touched fs).

(** *** Validator (section 4.3) *)

(** Modelled from the spec: the in-memory dry-apply of one file: walking
    the edits in start order, copy the file up to each span and put the
    replacement in its place. *)
Fixpoint splice (c : list string) (cursor : nat) (l : list placed) : list string :=
  match l with
  | [] => drop cursor c
  | x :: l' =>
      take (p_start x - cursor) (drop cursor c) ++
      replacement_text (p_edit x) ++ splice c (p_stop x) l'
  end.

(** Modelled from the spec: the post-edit content of one file, its edits
    applied in start order from the top. *)
Definition dry_apply_file (c : list string) (es : list Edit) : list string :=
  splice c 0 (sort_by_start (omap (place c) es)).

(** Modelled from the spec: the post-edit content per touched file,
    constructed without writing. *)
Definition dry_apply (snapshot : ProjectSnapshot) (fs : FixSet)
    : gmap string (list string) :=
  map_imap
    (λ p c, if decide (p ∈ touched fs)
            then Some (dry_apply_file c (edits_of p fs)) else None)
    snapshot.

(** Modelled from the spec: a ValidationReport, "mapping file -> list of
    issues (empty list = file is clean) plus overall boolean
    is_applicable". *)
Record ValidationReport : Type := {
  issues : gmap string (list issue);
  is_applicable : bool;
}.

(** Modelled from the spec: "empty list = file is clean". *)
Definition no_issue (l : list issue) : bool :=
  match l with [] => true | _ :: _ => false end.

Section validator.
(** Modelled from the spec: the external syntax/semantic checker, an
    injected capability: from a file and its post-edit content, a
    failure message or nothing. *)
Context (checker : string → list string → option string).

(** Modelled from the spec: step (3), only "if no conflicts". *)
Definition semantic_issues (snapshot : ProjectSnapshot) (fs : FixSet) (p : string)
    : list issue :=
  match detect_conflicts snapshot fs with
  | [] =>
      match dry_apply snapshot fs !! p with
      | Some c' =>
          match checker p c' with
          | Some message => [SemanticCheckFailed p message]
          | None => []
          end
      | None => []
      end
  | _ :: _ => []
  end.

(** Modelled from the spec: steps (1) to (3) for one file. *)
Definition file_issues (snapshot : ProjectSnapshot) (fs : FixSet) (p : string)
    : list issue :=
  (match snapshot !! p with
   | None => [MissingFileError p]
   | Some _ => []
   end) ++ file_conflicts snapshot fs p ++ semantic_issues snapshot fs p.

(** Modelled from the spec: [validate(snapshot, fixset) ->
    ValidationReport]; [is_applicable] is "true iff zero issues across
    all files". *)
Definition validate (snapshot : ProjectSnapshot) (fs : FixSet) : ValidationReport :=
  {| issues := list_to_map ((λ p, (p, file_issues snapshot fs p)) <$> touched fs);
     is_applicable := forallb (λ p, no_issue (file_issues snapshot fs p)) (touched fs) |}.
End validator.

(** *** The project on disk *)

(** Modelled from the spec: the writes an apply operation performs, in
    order: a file mutated with its post-edit content, or a file put back
    by [restore]. *)
Inductive io_event : Type :=
  | Mutated (file : string)
  | Restored (file : string).

(** Modelled from the spec: the file tree below [project_root], keyed by
    project-relative path, together with what the run cannot control:
    [faults] tells, for each coming read of the Backup Manager and each
    coming write, whether it fails (BackupIOError, MutationIOError, a
    failed restoration); past its end nothing fails. *)
Record Project : Type := {
  tree : gmap string (list string);
  faults : list bool;
  journal : list io_event;
}.

(** Modelled from the spec: one read or write takes the next entry of
    [faults] and succeeds unless that entry says otherwise. *)
Definition io_attempt (w : Project) : bool * Project :=
  match faults w with
  | [] => (true, w)
  | failing :: rest =>
      (negb failing, {| tree := tree w; faults := rest; journal := journal w |})
  end.

(** Modelled from the spec: one file written as a whole, or not at all
    ("per-file atomicity", section 4.5). *)
Definition write_file (ev : string → io_event) (p : string) (c : list string)
    (w : Project) : bool * Project :=
  let '(ok, w1) := io_attempt w in
  if ok
  then (true, {| tree := <[p := c]> (tree w1); faults := faults w1;
                 journal := journal w1 ++ [ev p] |})
  else (false, w1).

(** Modelled from the spec: one file read by the Backup Manager; nothing
    comes back when the file is unreadable. *)
Definition read_file (p : string) (w : Project) : option (list string) * Project :=
  let '(ok, w1) := io_attempt w in
  (if ok then tree w1 !! p else None, w1).

(** Modelled from the spec: "re-snapshot the project": the touched files
    as they are on disk now. *)
Definition take_snapshot (fs : FixSet) (w : Project) : ProjectSnapshot :=
  filter (λ kv, kv.1 ∈ touched fs) (tree w).

(** *** Backup manager (section 4.4) *)

(** Modelled from the spec: a BackupRecord, "mapping from file path to its
    pre-mutation content, tagged with the FixSet id". *)
Record BackupRecord : Type := {
  backup_of : string;
  saved : gmap string (list string);
}.

(** Modelled from the spec: "reads and stores full content of every
    touched file", stopping at the first unreadable one. *)
Fixpoint backup_files (ps : list string) (acc : gmap string (list string))
    (w : Project) : (string + gmap string (list string)) * Project :=
  match ps with
  | [] => (inr acc, w)
  | p :: ps' =>
      match read_file p w with
      | (Some c, w1) => backup_files ps' (<[p := c]> acc) w1
      | (None, w1) => (inl p, w1)
      end
  end.

(** Modelled from the spec: [begin_backup(fixset, project_root) ->
    BackupRecord], failing with BackupIOError(file) on the left. *)
Definition begin_backup (fs : FixSet) (w : Project)
    : (string + BackupRecord) * Project :=
  match backup_files (touched fs) ∅ w with
  | (inr m, w1) => (inr {| backup_of := fixset_id fs; saved := m |}, w1)
  | (inl p, w1) => (inl p, w1)
  end.

(** Modelled from the spec: [restore(record)] over the files already
    mutated: "best-effort across files but reports which restorations
    failed"; it "aggregates and continues". *)
Fixpoint restore (record : BackupRecord) (ps : list string) (w : Project)
    : list string * Project :=
  match ps with
  | [] => ([], w)
  | p :: ps' =>
      match saved record !! p with
      | Some c =>
          let '(ok, w1) := write_file Restored p c w in
          let '(failed, w2) := restore record ps' w1 in
          (if ok then failed else p :: failed, w2)
      | None =>
          let '(failed, w2) := restore record ps' w in
          (p :: failed, w2)
      end
  end.

(** *** Apply engine (section 4.5) *)

(** Modelled from the spec: the per-file status of an ApplyResult
    ([applied], [skipped-stale], [skipped-conflict], [failed-io]). *)
Inductive file_status : Type :=
  | Applied
  | SkippedStale
  | SkippedConflict
  | FailedIO.

(** Modelled from the spec: the aggregate status, the final states of
    the apply state machine. *)
Inductive op_status : Type :=
  | Committed
  | RolledBack
  | Partial.

(** Modelled from the spec: an ApplyResult, per-file status plus the
    aggregate status, with the "record of which files succeeded, which
    were rolled back, and which restore failed". *)
Record ApplyResult : Type := {
  status : op_status;
  per_file : gmap string file_status;
  succeeded : list string;
  failed : list string;
  rolled_back : list string;
  restore_failed : list string;
}.

(** Modelled from the spec: step 3, "mutate files one at a time in a
    stable order ... If any single-file write fails, halt further
    mutation": the files written, and the file whose write failed. *)
Fixpoint mutate (new : gmap string (list string)) (ps : list string) (w : Project)
    : (list string * option string) * Project :=
  match ps with
  | [] => (([], None), w)
  | p :: ps' =>
      match new !! p with
      | Some c =>
          let '(ok, w1) := write_file Mutated p c w in
          if ok
          then let '((done, stopped), w2) := mutate new ps' w1 in
               ((p :: done, stopped), w2)
          else (([], Some p), w1)
      | None => (([], Some p), w)
      end
  end.

(** Modelled from the spec: step 1 reports a rejected fix set "with
    per-file skipped-conflict/skipped-stale status": a file is
    skipped-stale when one of its issues is a StaleEdit. *)
Definition is_stale (i : issue) : bool :=
  match i with StaleEdit _ => true | _ => false end.

(** Modelled from the spec: the status of a file of a rejected fix
    set. *)
Definition skip_status (l : list issue) : file_status :=
  if existsb is_stale l then SkippedStale else SkippedConflict.

(** Modelled from the spec: steps 3 and 4: mutate, and on a failed write
    "if backup was taken, invoke restore for files already mutated in
    this run, then report Partial"; "on full success, transition to
    Committed". *)
Definition mutate_and_report (new : gmap string (list string)) (ps : list string)
    (backup : option BackupRecord) (w1 : Project) : ApplyResult * Project :=
  match mutate new ps w1 with
  | ((done, None), w2) =>
      ({| status := Committed;
          per_file := list_to_map ((λ p, (p, Applied)) <$> done);
          succeeded := done; failed := [];
          rolled_back := []; restore_failed := [] |}, w2)
  | ((done, Some p), w2) =>
      let '(lost, w3) :=
        match backup with
        | Some record => restore record done w2
        | None => ([], w2)
        end in
      ({| status := Partial;
          per_file := <[ p := FailedIO ]>
                        (list_to_map ((λ q, (q, Applied)) <$> done));
          succeeded := done; failed := [p];
          rolled_back :=
            match backup with
            | Some _ => filter (λ q, q ∉ lost) done
            | None => []
            end;
          restore_failed := lost |}, w3)
  end.

Section apply_engine.
Context (checker : string → list string → option string).

(** Modelled from the spec: [apply(project_root, fixset,
    options{create_backup}) -> ApplyResult], steps 1 to 4; the project
    is the tree below [project_root]. *)
Definition apply (fs : FixSet) (create_backup : bool) (w : Project)
    : ApplyResult * Project :=
  let snapshot := take_snapshot fs w in
  let report := validate checker snapshot fs in
  if is_applicable report then
    match (if create_backup
           then match begin_backup fs w with
                | (inr record, w1) => (inr (Some record), w1)
                | (inl p, w1) => (inl p, w1)
                end
           else (inr None, w)) with
    | (inl p, w1) =>
        ({| status := RolledBack; per_file := {[ p := FailedIO ]};
            succeeded := []; failed := [p];
            rolled_back := []; restore_failed := [] |}, w1)
    | (inr backup, w1) =>
        mutate_and_report (dry_apply snapshot fs) (touched fs) backup w1
    end
  else
    ({| status := RolledBack; per_file := skip_status <$> issues report;
        succeeded := []; failed := [];
        rolled_back := []; restore_failed := [] |}, w).

End apply_engine.

(** *** Vocabulary of the statements *)

(** [a] stands somewhere before [b] in [l]. *)
Definition before {A} (a b : A) (l : list A) : Prop :=
  ∃ l1 l2 l3, l = l1 ++ a :: l2 ++ b :: l3.

(** The order the detector sorts by. *)
Definition by_start (x y : placed) : Prop := p_start x ≤ p_start y.

(** Two edits whose spans, resolved against [c], share a line or lie one
    inside the other. *)
Definition spans_overlap (c : list string) (e1 e2 : Edit) : Prop :=
  ∃ a1 b1 a2 b2,
    resolve c e1 = Located a1 b1 ∧ resolve c e2 = Located a2 b2 ∧
    a1 < b2 ∧ a2 < b1.

(** Whether the [n]-th coming read or write fails. *)
Definition upcoming (w : Project) (n : nat) : bool :=
  default false (faults w !! n).

(** The tree once the files [ps] hold what [new] has for them. *)
Definition write_all (new : gmap string (list string)) (ps : list string)
    (t : gmap string (list string)) : gmap string (list string) :=
  foldl (λ t p, match new !! p with Some c => <[p := c]> t | None => t end) t ps.

(** The project after [n] reads or writes went by. *)
Definition later (n : nat) (t : gmap string (list string)) (j : list io_event)
    (w : Project) : Project :=
  {| tree := t; faults := drop n (faults w); journal := journal w ++ j |}.

End FixEngine.

(** ** Concrete environments

    A small runtime, and a project with a few fix sets, on which the
    definitions above can be run. *)

Module Demo.
Import PythonApi.

(** A name longer than every name in use. *)
Fixpoint xs (n : nat) : string :=
  match n with
  | O => ""
  | S n => "x" +:+ xs n
  end.

Definition demo_random_name (fs : gmap string string) : string :=
  xs (S (sum_list_with String.length (map_to_list fs).*1)).

(** A byte outside ASCII. *)
Definition byte_ff : string := String (Ascii.ascii_of_nat 255) "".

(** Whether a text is plain ASCII. *)
Fixpoint is_ascii (s : string) : bool :=
  match s with
  | EmptyString => true
  | String ch s' => Nat.ltb (Ascii.nat_of_ascii ch) 128 && is_ascii s'
  end.

(** The binary is picked by its path: ["ok"] prints a JSON document,
    ["garbage"] prints something else, ["fail"] and ["quiet-fail"] exit
    with a status, ["rm"] removes the file named last on its command line,
    ["edit"] rewrites a project file, ["raw"] prints a byte outside ASCII,
    ["raw-err"] a JSON document and such a byte on its standard error,
    ["raw-fail"] such a byte on its standard error before it exits with a
    status, anything else cannot be started. *)
Definition demo_spawn (cmd : list string) (input : option string)
    (fs : gmap string string) : option CompletedProcess * gmap string string :=
  match cmd with
  | "ok" :: _ => (Some {| returncode := 0; stdout := "{}"; stderr := "" |}, fs)
  | "raw" :: _ => (Some {| returncode := 0; stdout := byte_ff; stderr := "" |}, fs)
  | "raw-err" :: _ =>
      (Some {| returncode := 0; stdout := "{}"; stderr := byte_ff |}, fs)
  | "raw-fail" :: _ =>
      (Some {| returncode := 2; stdout := ""; stderr := byte_ff |}, fs)
  | "garbage" :: _ => (Some {| returncode := 0; stdout := "done"; stderr := "" |}, fs)
  | "fail" :: _ => (Some {| returncode := 3; stdout := "out"; stderr := "boom" |}, fs)
  | "quiet-fail" :: _ => (Some {| returncode := -9; stdout := "out"; stderr := "" |}, fs)
  | "rm" :: _ =>
      (Some {| returncode := 0; stdout := "{}"; stderr := "" |},
       delete (default "" (last cmd)) fs)
  | "edit" :: _ =>
      (Some {| returncode := 0; stdout := "{}"; stderr := "" |},
       <["proj/src/lib.rs" := "fixed"]> fs)
  | _ => (None, fs)
  end.

Definition demo_json_loads (doc : string) : option pyval :=
  if decide (doc = "{}") then Some (PyDict []) else None.

(** A missing binary. *)
Definition demo_start_error (cmd : list string) (fs : gmap string string)
    : start_failure :=
  NoSuchFile (default "" (head cmd)).

(** A process killed at once leaves the files as they were. *)
Definition demo_spawn_killed (cmd : list string) (fs : gmap string string)
    : option (gmap string string) :=
  match (demo_spawn cmd None fs).1 with
  | Some _ => Some fs
  | None => None
  end.

(** The ASCII locale: a text and its bytes are the same, and there is
    neither for a byte above 127. *)
Definition ascii_only (s : string) : option string :=
  if is_ascii s then Some s else None.

Definition demo_runtime : Runtime.
Proof.
  refine {| spawn := demo_spawn;
            start_error := demo_start_error;
            spawn_killed := demo_spawn_killed;
            posix := true;
            decode := ascii_only;
            encode_utf8 := ascii_only;
            encodable := is_ascii;
            json_loads := demo_json_loads;
            json_text := λ _, "{...}";
            json_partial := λ _, "{";
            gettempdir := "/tmp";
            random_name := demo_random_name;
            random_name_fresh := _ |}.
  intros fs.
  assert (∀ a b, String.length (a +:+ b) = String.length a + String.length b)
    as Happ.
  { intros a b. induction a as [|ch a IH]; simpl; [done | by rewrite IH]. }
  assert (∀ n, String.length (xs n) = n) as Hxs.
  { intros n. induction n as [|n IH]; [done |].
    change (xs (S n)) with ("x" +:+ xs n). by rewrite Happ, IH. }
  destruct (fs !! _) as [v|] eqn:Hlook; [exfalso | done].
  apply elem_of_map_to_list in Hlook.
  apply (list_elem_of_fmap_2 fst) in Hlook. simpl in Hlook.
  apply (sum_list_with_in _ String.length) in Hlook.
  rewrite !Happ in Hlook. unfold demo_random_name in Hlook.
  rewrite Hxs in Hlook. simpl in Hlook. lia.
Defined.

Definition tool (binary : string) : RustAiTool :=
  {| rust_binary_path := binary; config_path := ".rust-ai-tool.toml" |}.

Definition world0 : World :=
  {| files := {[ "proj/src/lib.rs" := "fn main() {}" ]}; events := [] |}.

Import FixEngine.

(** No semantic checker plugged in. *)
Definition no_checker : string → list string → option string := λ _ _, None.

Definition edit_a : Edit :=
  {| file_path := "a.rs"; edit_span := LineRange 1 2;
     original_text := ["old a"]; replacement_text := ["new a"];
     edit_id := "edit-a" |}.
Definition edit_b : Edit :=
  {| file_path := "b.rs"; edit_span := LineRange 0 1;
     original_text := ["old b"]; replacement_text := ["new b"; "more b"];
     edit_id := "edit-b" |}.
Definition edit_c : Edit :=
  {| file_path := "c.rs"; edit_span := ContextAnchor ["fn c"] 1;
     original_text := ["old c"]; replacement_text := [];
     edit_id := "edit-c" |}.

(** Edits across [a.rs], [b.rs] and [c.rs]. *)
Definition fixset_abc : FixSet :=
  {| fixset_id := "fix-abc"; edits := [edit_c; edit_a; edit_b] |}.

Definition project (coming_faults : list bool) : Project :=
  {| tree := {[ "a.rs" := ["fn a"; "old a"];
                "b.rs" := ["old b"];
                "c.rs" := ["fn c"; "old c"; "end"];
                "README" := ["read me"] ]};
     faults := coming_faults; journal := [] |}.

(** Two edits to [src/main.rs], lines 5 to 8 and 7 to 10. *)
Definition edit_5_8 : Edit :=
  {| file_path := "src/main.rs"; edit_span := LineRange 5 8;
     original_text := ["l5"; "l6"; "l7"]; replacement_text := ["five"];
     edit_id := "edit-5-8" |}.
Definition edit_7_10 : Edit :=
  {| file_path := "src/main.rs"; edit_span := LineRange 7 10;
     original_text := ["l7"; "l8"; "l9"]; replacement_text := ["seven"];
     edit_id := "edit-7-10" |}.
Definition fixset_overlap : FixSet :=
  {| fixset_id := "fix-overlap"; edits := [edit_5_8; edit_7_10] |}.
Definition main_rs : list string :=
  ["l0"; "l1"; "l2"; "l3"; "l4"; "l5"; "l6"; "l7"; "l8"; "l9"; "l10"].

(** Two insertions at the same point, and an edit further down. *)
Definition insert_x : Edit :=
  {| file_path := "a.rs"; edit_span := LineRange 1 1;
     original_text := []; replacement_text := ["x"]; edit_id := "ins-x" |}.
Definition insert_y : Edit :=
  {| file_path := "a.rs"; edit_span := LineRange 1 1;
     original_text := []; replacement_text := ["y"]; edit_id := "ins-y" |}.

End Demo.

(** ** Part I, continued: the rest of [src/bindings/python_api.py] *)

(** *** [RustAiTool.__init__] and [RustAiTool._find_rust_binary] *)

Module RustAiToolInit.
Import PythonApi.
Local Open Scope py_scope.

(** What the constructor asks of the interpreter and of [os.path]. *)
Class Host : Type := {
  (** [__file__] *)
  module_file : string;
  os_path_abspath : string → string;
  os_path_dirname : string → string;
  (** [os.path.join(a, *p)] *)
  os_path_join : string → list string → string;
  sys_platform : string;
  (** [str.strip()] *)
  str_strip : string → string;
  (** When a process cannot be started: whether it is for want of the
      executable (a [FileNotFoundError]) or for another reason (another
      [OSError]). *)
  executable_missing : list string → gmap string string → bool;
}.

Section constructor.
Context `{Runtime} `{Host}.

(** [os.path.exists(path)], on the files of the world. *)
Definition os_path_exists (path : string) : M bool := λ w,
  (Return (bool_decide (is_Some (files w !! path))), w).

(** [subprocess.run(cmd, capture_output=True, text=True, check=True)], with
    the kind of the error told when the process cannot be started. *)
Definition subprocess_run_lookup (cmd : list string) : M CompletedProcess := λ w,
  let w := emit (EvSpawn cmd None) w in
  match spawn cmd None (files w) with
  | (None, fs) =>
      (Raise (if executable_missing cmd (files w)
              then FileNotFoundError (default "" (head cmd))
              else OSError "cannot execute"),
       set_files fs w)
  | (Some p, fs) =>
      if (returncode p =? 0)%Z
      then (Return p, set_files fs w)
      else (Raise (CalledProcessError (returncode p) (stdout p) (stderr p)),
            set_files fs w)
  end.

(** [try: body except (subprocess.CalledProcessError, FileNotFoundError):
    handler] *)
Definition try_except_lookup {A} (body handler : M A) : M A := λ w,
  match body w with
  | (Raise (CalledProcessError _ _ _), w') => handler w'
  | (Raise (FileNotFoundError _), w') => handler w'
  | other => other
  end.

(** [potential_paths] in [_find_rust_binary]. *)
Definition potential_paths : list string :=
  let script_dir := os_path_dirname (os_path_abspath module_file) in
  let parent_dir := os_path_dirname script_dir in
  [os_path_join parent_dir ["target"; "release"; "rust-ai-tool"];
   os_path_join parent_dir ["target"; "release"; "rust-ai-tool.exe"];
   os_path_join parent_dir ["target"; "debug"; "rust-ai-tool"];
   os_path_join parent_dir ["target"; "debug"; "rust-ai-tool.exe"]].

(** [for path in potential_paths: if os.path.exists(path): return path] *)
Fixpoint first_existing (paths : list string) : M (option string) :=
  match paths with
  | [] => ret None
  | path :: rest =>
      let* found := os_path_exists path in
      if found then ret (Some path) else first_existing rest
  end.

(** The command of the [try] block. *)
Definition lookup_command : list string :=
  if decide (sys_platform ≠ "win32")
  then ["which"; "rust-ai-tool"] else ["where"; "rust-ai-tool"].

(** [_find_rust_binary(self)] *)
Definition _find_rust_binary : M string :=
  let* hit := first_existing potential_paths in
  match hit with
  | Some path => ret path
  | None =>
      try_except_lookup
        (let* result := subprocess_run_lookup lookup_command in
         ret (str_strip (stdout result)))
        (ret "rust-ai-tool")
  end.

(** [value or fallback], for an optional string. *)
Definition truthy (value : option string) : option string :=
  match value with
  | Some s => if decide (s = "") then None else Some s
  | None => None
  end.

(** [__init__(self, rust_binary_path=None, config_path=None)] *)
Definition __init__ (rust_binary_path config_path : option string)
    : M RustAiTool :=
  let* binary := match truthy rust_binary_path with
                 | Some s => ret s
                 | None => _find_rust_binary
                 end in
  let config := default ".rust-ai-tool.toml" (truthy config_path) in
  let* found := os_path_exists binary in
  if found
  then ret {| PythonApi.rust_binary_path := binary;
              PythonApi.config_path := config |}
  else raise (FileNotFoundError ("Rust AI Tool binary not found at " +:+ binary)).
End constructor.

End RustAiToolInit.

(** *** [class RustAiToolClient] *)

Module ApiClient.
Import PythonApi.

(** A call of one of the methods [get], [post], [put] and [delete] of the
    session: the method, the URL, the headers the session holds, and the
    data as [params=] or as [json=].  What goes over the wire for it is
    the library's business: it merges the headers with those of the
    environment and follows the redirects of the server. *)
Record Request : Type := {
  verb : string;
  url : string;
  headers : gmap string string;
  params : option pyval;
  json : option pyval;
}.

(** The response such a call returns: the last one, when the server
    redirects. *)
Record Response : Type := {
  status_code : nat;
  text : string;
}.

(** What the client raises: the [ValueError] of [_make_request] itself,
    the [HTTPError] of [raise_for_status], the [JSONDecodeError] of
    [response.json()], and whatever the call of the session raises, by
    the name of its class ([ConnectionError], [Timeout],
    [TooManyRedirects], [MissingSchema], [InvalidURL],
    [InvalidJSONError], ...).  In [requests] the classes
    [JSONDecodeError], [MissingSchema], [InvalidSchema], [InvalidURL] and
    [InvalidHeader] derive from [ValueError] too. *)
Inductive client_exn : Type :=
  | ValueError (msg : string)
  | HTTPError (status : nat)
  | ResponseJSONDecodeError (doc : string)
  | RequestException (class what : string).

(** Whether [except ValueError] catches the exception. *)
Definition is_ValueError (e : client_exn) : bool :=
  match e with
  | ValueError _ | ResponseJSONDecodeError _ => true
  | HTTPError _ => false
  | RequestException class _ =>
      bool_decide (class ∈ ["MissingSchema"; "InvalidSchema"; "InvalidURL";
                            "InvalidHeader"; "JSONDecodeError"])
  end.

(** The library and the server: what a call of the session comes to,
    given the calls made before, an exception or the response it returns;
    and the headers a new [requests.Session] starts with. *)
Class Network : Type := {
  session_request : list Request → Request → client_exn + Response;
  default_headers : gmap string string;
}.

(** Computations that call the session and may raise. *)
Definition CM (A : Type) : Type := list Request → (client_exn + A) * list Request.

(** [s.lstrip("/")] *)
Fixpoint lstrip_slash (s : string) : string :=
  match s with
  | EmptyString => ""
  | String ch s' => if decide (String ch "" = "/") then lstrip_slash s' else s
  end.

(** [s.rstrip("/")] *)
Fixpoint rstrip_slash (s : string) : string :=
  match s with
  | EmptyString => ""
  | String ch s' =>
      match rstrip_slash s' with
      | EmptyString => if decide (String ch "" = "/") then "" else String ch ""
      | rest => String ch rest
      end
  end.

Record RustAiToolClient : Type := {
  api_url : string;
  api_key : option string;
  session_headers : gmap string string;
}.

Section client.
Context `{Runtime} `{Network}.

(** [__init__(self, api_url="http://localhost:8080", api_key=None)] *)
Definition __init__ (api_url api_key : option string) : RustAiToolClient :=
  let api_url := default "http://localhost:8080" api_url in
  {| api_url := rstrip_slash api_url;
     api_key := api_key;
     session_headers :=
       match api_key with
       | Some key =>
           if decide (key = "") then default_headers
           else <["Authorization" := "Bearer " +:+ key]> default_headers
       | None => default_headers
       end |}.

(** One call of the session, then [response.raise_for_status()] and
    [response.json()] on what it returns. *)
Definition send (request : Request) : CM pyval := λ sent,
  match session_request sent request with
  | inl e => (inl e, sent ++ [request])
  | inr response =>
      if decide (400 ≤ status_code response < 600)%nat
      then (inl (HTTPError (status_code response)), sent ++ [request])
      else match json_loads (text response) with
           | Some v => (inr v, sent ++ [request])
           | None => (inl (ResponseJSONDecodeError (text response)), sent ++ [request])
           end
  end.

(** [_make_request(self, method, endpoint, data=None)] *)
Definition _make_request (self : RustAiToolClient) (method endpoint : string)
    (data : option pyval) : CM pyval :=
  let url := api_url self +:+ "/" +:+ lstrip_slash endpoint in
  if decide (method = "GET") then
    send {| verb := "GET"; url := url; headers := session_headers self;
            params := data; json := None |}
  else if decide (method = "POST") then
    send {| verb := "POST"; url := url; headers := session_headers self;
            params := None; json := data |}
  else if decide (method = "PUT") then
    send {| verb := "PUT"; url := url; headers := session_headers self;
            params := None; json := data |}
  else if decide (method = "DELETE") then
    send {| verb := "DELETE"; url := url; headers := session_headers self;
            params := None; json := data |}
  else λ sent, (inl (ValueError ("Unsupported HTTP method: " +:+ method)), sent).

(** The call [_make_request] makes for one of its four verbs. *)
Definition request_for (self : RustAiToolClient) (method endpoint : string)
    (data : option pyval) : Request :=
  {| verb := method;
     url := api_url self +:+ "/" +:+ lstrip_slash endpoint;
     headers := session_headers self;
     params := if decide (method = "GET") then data else None;
     json := if decide (method = "GET") then None else data |}.

(** [analyze_project(self, project_path)] *)
Definition analyze_project (self : RustAiToolClient) (project_path : string)
    : CM pyval :=
  _make_request self "POST" "/api/analyze"
    (Some (PyDict [("project_path", PyStr project_path)])).

(** [validate_fixes(self, project_path, fixes)] *)
Definition validate_fixes (self : RustAiToolClient) (project_path : string)
    (fixes : list (string * pyval)) : CM pyval :=
  _make_request self "POST" "/api/validate"
    (Some (PyDict [("project_path", PyStr project_path); ("fixes", PyDict fixes)])).

(** [apply_fixes(self, project_path, fixes, create_backup=True)] *)
Definition apply_fixes (self : RustAiToolClient) (project_path : string)
    (fixes : list (string * pyval)) (create_backup : option bool) : CM pyval :=
  let create_backup := default true create_backup in
  _make_request self "POST" "/api/apply"
    (Some (PyDict [("project_path", PyStr project_path); ("fixes", PyDict fixes);
                   ("create_backup", PyBool create_backup)])).

(** [generate_project(self, description, output_dir, name)] *)
Definition generate_project (self : RustAiToolClient)
    (description output_dir name : string) : CM pyval :=
  _make_request self "POST" "/api/generate"
    (Some (PyDict [("description", PyStr description);
                   ("output_dir", PyStr output_dir); ("name", PyStr name)])).
End client.

End ApiClient.

(** *** The methods of [RustAiTool] that go through a fixes file *)

Module FixesMethods.
Import PythonApi.

Section methods.
Context `{Runtime}.

(** The three methods with a fixes file, and the arguments each builds. *)
Inductive fixes_method (self : RustAiTool) (fixes : fixes_arg)
    : M pyval → (string → list string) → Prop :=
  | is_validate_fixes path :
      fixes_method self fixes (validate_fixes self path fixes)
        (validate_fixes_args path)
  | is_apply_fixes path create_backup :
      fixes_method self fixes (apply_fixes self path fixes create_backup)
        (λ name, apply_fixes_args path name (default true create_backup))
  | is_create_github_pr owner repo branch title :
      fixes_method self fixes (create_github_pr self owner repo branch title fixes)
        (create_github_pr_args owner repo branch title).
End methods.

End FixesMethods.

(** *** Concrete hosts, runtimes and servers *)

Module DemoHost.
Import PythonApi Demo.

(** The directory above, for the two paths the constructor asks about. *)
Definition demo_dirname (path : string) : string :=
  if decide (path = "/opt/tool/bindings/python_api.py") then "/opt/tool/bindings"
  else if decide (path = "/opt/tool/bindings") then "/opt/tool"
  else path.

Definition demo_host : RustAiToolInit.Host :=
  {| RustAiToolInit.module_file := "/opt/tool/bindings/python_api.py";
     RustAiToolInit.os_path_abspath := λ path, path;
     RustAiToolInit.os_path_dirname := demo_dirname;
     RustAiToolInit.os_path_join :=
       λ a parts, foldl (λ acc part, acc +:+ "/" +:+ part) a parts;
     RustAiToolInit.sys_platform := "linux";
     RustAiToolInit.str_strip := λ s, s;
     RustAiToolInit.executable_missing := λ _ _, true |}.

(** A runtime on which [which] answers. *)
Definition which_runtime : Runtime :=
  {| spawn := λ cmd input fs,
       match cmd with
       | "which" :: _ =>
           (Some {| returncode := 0; stdout := "/usr/local/bin/rust-ai-tool";
                    stderr := "" |}, fs)
       | _ => demo_spawn cmd input fs
       end;
     start_error := demo_start_error;
     spawn_killed := demo_spawn_killed;
     posix := true;
     decode := ascii_only;
     encode_utf8 := ascii_only;
     encodable := is_ascii;
     json_loads := demo_json_loads;
     json_text := λ _, "{...}";
     json_partial := λ _, "{";
     gettempdir := "/tmp";
     random_name := demo_random_name;
     random_name_fresh := @random_name_fresh demo_runtime |}.

(** A checkout with a debug build. *)
Definition world_debug : World :=
  {| files := {[ "/opt/tool/target/debug/rust-ai-tool" := "ELF" ]}; events := [] |}.

(** A machine with the binary on the path. *)
Definition world_installed : World :=
  {| files := {[ "/usr/local/bin/rust-ai-tool" := "ELF" ]}; events := [] |}.

(** A server that knows one project. *)
Definition demo_network : ApiClient.Network :=
  {| ApiClient.session_request := λ sent request,
       if decide (ApiClient.url request = "http://localhost:8080/api/analyze")
       then inr {| ApiClient.status_code := 200; ApiClient.text := "{}" |}
       else if decide (ApiClient.url request = "http://localhost:8080/api/apply")
       then inr {| ApiClient.status_code := 500; ApiClient.text := "{}" |}
       else if decide (ApiClient.url request = "http://down/api/analyze")
       then inl (ApiClient.RequestException "ConnectionError"
                   "http://down/api/analyze")
       else if decide (ApiClient.url request = "localhost:8080/api/analyze")
       then inl (ApiClient.RequestException "MissingSchema"
                   "localhost:8080/api/analyze")
       else inr {| ApiClient.status_code := 404; ApiClient.text := "not found" |};
     ApiClient.default_headers := {[ "Accept" := "*/*" ]} |}.

End DemoHost.

(** ** Part III: properties of the binding layer *)

Module PythonApiSpec.
Import PythonApi.
Local Open Scope py_scope.

Section run_command.
Context `{Runtime}.

(** A call without input, in one equation. *)
Lemma run_command_unfold self args input_data w :
  stdin_of input_data = None →
  _run_command self args input_data w =
  let cmd := command_line self args in
  let o := spawn cmd None (files w) in
  (command_result cmd (files w) o.1,
   {| files := o.2;
      events := events w ++ [EvPrint ("Running command: " +:+ join " " cmd);
                             EvSpawn cmd None] |}).
Proof.
  intros Hinput.
  assert (_run_command self args input_data w = _run_command self args None w)
    as ->.
  { destruct input_data as [s|]; [|done]. unfold stdin_of in Hinput.
    unfold _run_command. by destruct (decide (s = "")). }
  unfold _run_command, try_except_CalledProcessError, bind, print, tell,
    subprocess_run, command_result, failure_message, ret, raise,
    emit, set_files, command_line.
  cbn [files events]. destruct (spawn _ _ _) as [[p|] fs]; cbn [fst snd].
  - destruct (decode (stdout p)) as [out|], (decode (stderr p)) as [err|];
      [|by cbn; rewrite <- (assoc_L (++))..].
    destruct (returncode p =? 0)%Z; cbn; by rewrite <- (assoc_L (++)).
  - by destruct (start_error _ _); cbn; rewrite <- (assoc_L (++)).
Qed.

(** A call with an input, in one equation. *)
Lemma run_command_input self args s w :
  s ≠ "" →
  _run_command self args (Some s) w =
  let cmd := command_line self args in
  let printed := events w ++ [EvPrint ("Running command: " +:+ join " " cmd)] in
  match encode_utf8 s with
  | None => (Raise (UnicodeEncodeError s), {| files := files w; events := printed |})
  | Some bytes =>
      match spawn_killed cmd (files w) with
      | Some fs =>
          (Raise bytes_input_error,
           {| files := fs; events := printed ++ [EvSpawn cmd (Some bytes)] |})
      | None =>
          (Raise (start_exn (start_error cmd (files w))),
           {| files := files w; events := printed ++ [EvSpawn cmd (Some bytes)] |})
      end
  end.
Proof.
  intros Hs.
  unfold _run_command, try_except_CalledProcessError, bind, print, tell,
    subprocess_run, failure_message, ret, raise, emit, set_files, command_line.
  rewrite decide_False by done. cbn [files events].
  destruct (encode_utf8 s) as [bytes|]; [|done]. cbn [files events].
  destruct (spawn_killed _ _) as [fs|]; cbn [files events].
  - unfold bytes_input_error. by destruct posix; cbn; rewrite <- (assoc_L (++)).
  - by destruct (start_error _ _); cbn; rewrite <- (assoc_L (++)).
Qed.

Lemma write_fixes_file_unfold fixes w :
  write_fixes_file fixes w =
  let name := tmp_name (files w) in
  ((if fixes_ok fixes then Return name else Raise (fixes_error fixes)),
   {| files := <[name := fixes_text fixes]> (files w);
      events := events w ++ [EvCreate name; EvWrite name (fixes_text fixes)] |}).
Proof.
  unfold write_fixes_file, NamedTemporaryFile_json, bind, tmp_name.
  destruct fixes as [s|d]; cbn [fixes_ok fixes_text fixes_error].
  - unfold write_text. destruct (encodable s).
    + unfold file_write, emit, set_files, ret. cbn.
      by rewrite insert_insert_eq, <- (assoc_L (++)).
    + unfold file_write, emit, set_files, ret, bind, raise. cbn.
      by rewrite insert_insert_eq, <- (assoc_L (++)).
  - unfold json_dump. destruct (serializable (PyDict d)).
    + unfold file_write, emit, set_files, ret. cbn.
      by rewrite insert_insert_eq, <- (assoc_L (++)).
    + unfold file_write, emit, set_files, ret, bind, raise. cbn.
      by rewrite insert_insert_eq, <- (assoc_L (++)).
Qed.

(** Everything a method with a fixes file does, in one equation. *)
Lemma with_fixes_file_unfold self mk_args fixes w :
  with_fixes_file self mk_args fixes w =
  let name := tmp_name (files w) in
  let text := fixes_text fixes in
  if fixes_ok fixes then
    let cmd := command_line self (mk_args name) in
    let o := spawn cmd None (<[name := text]> (files w)) in
    let before :=
      events w ++ [EvCreate name; EvWrite name text;
                   EvPrint ("Running command: " +:+ join " " cmd);
                   EvSpawn cmd None] in
    match o.2 !! name with
    | Some _ =>
        (parsed (command_result cmd (<[name := text]> (files w)) o.1),
         {| files := delete name o.2; events := before ++ [EvUnlink name] |})
    | None =>
        (Raise (FileNotFoundError name), {| files := o.2; events := before |})
    end
  else
    (Raise (fixes_error fixes),
     {| files := <[name := text]> (files w);
        events := events w ++ [EvCreate name; EvWrite name text] |}).
Proof.
  unfold with_fixes_file, bind. rewrite write_fixes_file_unfold. cbn zeta.
  destruct (fixes_ok fixes); [|done].
  unfold try_finally, bind. rewrite run_command_unfold by done.
  cbn zeta. cbn [files events].
  destruct (spawn _ _ _) as [o fs]. cbn [fst snd].
  assert (∀ out w', loads out w' = (parse out, w')) as Hloads.
  { intros out w'. unfold loads, parse, ret, raise.
    destruct (json_loads out); reflexivity. }
  destruct (command_result _ _ o) as [out|e] eqn:Hres.
  - rewrite Hloads. unfold os_unlink, emit, set_files. cbn [files events].
    destruct (fs !! _); cbn; by rewrite <- ?(assoc_L (++)).
  - unfold os_unlink, emit, set_files. cbn [files events].
    destruct (fs !! _); cbn; by rewrite <- ?(assoc_L (++)).
Qed.

Lemma loads_unfold out w : loads out w = (parse out, w).
Proof. unfold loads, parse, ret, raise. by destruct (json_loads out). Qed.

Lemma validate_fixes_shape self path fixes :
  validate_fixes self path fixes =
  with_fixes_file self (validate_fixes_args path) fixes.
Proof. reflexivity. Qed.

Lemma apply_fixes_shape self path fixes create_backup :
  apply_fixes self path fixes create_backup =
  with_fixes_file self
    (λ name, apply_fixes_args path name (default true create_backup)) fixes.
Proof. reflexivity. Qed.

Lemma create_github_pr_shape self owner repo branch title fixes :
  create_github_pr self owner repo branch title fixes =
  with_fixes_file self (create_github_pr_args owner repo branch title) fixes.
Proof. reflexivity. Qed.

(** A temporary name is never the flag: it holds a slash. *)
Lemma has_slash_app a b : has_slash (a +:+ "/" +:+ b) = true.
Proof.
  induction a as [|ch a IH]; [done |].
  change (bool_decide (String ch "" = "/") || has_slash (a +:+ "/" +:+ b) = true).
  by rewrite IH, orb_true_r.
Qed.

Lemma tmp_name_not_flag fs : tmp_name fs ≠ "--backup".
Proof.
  intros Heq. assert (has_slash (tmp_name fs) = true) as Hs.
  { unfold tmp_name. change ("/tmp" +:+ ?r) with ("/" +:+ "tmp" +:+ r).
    apply has_slash_app. }
  by rewrite Heq in Hs.
Qed.

Lemma spawned_app evs1 evs2 : spawned (evs1 ++ evs2) = spawned evs1 ++ spawned evs2.
Proof. apply omap_app. Qed.

Lemma with_fixes_file_spawned self mk_args fixes w :
  spawned (events (with_fixes_file self mk_args fixes w).2) =
  spawned (events w) ++
  (if fixes_ok fixes
   then [command_line self (mk_args (tmp_name (files w)))] else []).
Proof.
  rewrite with_fixes_file_unfold. cbn zeta.
  destruct (fixes_ok fixes); cbn [snd events].
  - destruct ((spawn _ _ _).2 !! _); cbn [snd events]; rewrite ?spawned_app; cbn;
      by rewrite ?(right_id_L [] (++)).
  - rewrite spawned_app. cbn. by rewrite (right_id_L [] (++)).
Qed.

Lemma with_fixes_file_removed self mk_args fixes w :
  fixes_ok fixes = true →
  files (with_fixes_file self mk_args fixes w).2 !! tmp_name (files w) = None.
Proof.
  intros Hok. rewrite with_fixes_file_unfold, Hok. cbn zeta.
  destruct ((spawn _ _ _).2 !! _) eqn:Hlook; cbn [snd files];
    [apply lookup_delete_eq | done].
Qed.

Local Ltac solve_touches :=
  repeat (apply Forall_cons; split;
          [cbn; intros q Hq;
           first [by apply elem_of_nil in Hq
                 | by apply list_elem_of_singleton in Hq] |]);
  apply Forall_nil_2.

Lemma with_fixes_file_effects self mk_args fixes w :
  only_fixes_file_effects (with_fixes_file self mk_args fixes) self mk_args fixes w.
Proof.
  unfold only_fixes_file_effects. rewrite with_fixes_file_unfold. cbn zeta.
  destruct (fixes_ok fixes).
  - destruct ((spawn _ _ _).2 !! _) eqn:Hlook; cbn [snd files events].
    + eexists. split; [by rewrite <- (assoc_L (++)) |].
      split; [|split; [by left | done]].
      solve_touches.
    + eexists. split; [done |].
      split; [|split; [by right | by rewrite delete_id]].
      solve_touches.
  - cbn [snd files events]. eexists. split; [done |].
    split; [|split; [by right | done]].
    solve_touches.
Qed.

(** C6: [validate_fixes] and [apply_fixes] write no file of their own
    but the temporary fixes file, a file that did not exist before the
    call: their file-system events are its creation, its writing and its
    removal, and the files they leave are the files the spawned process
    leaves, less the fixes file. *)
Theorem wrappers_touch_only_the_fixes_file self path fixes create_backup w :
  files w !! tmp_name (files w) = None ∧
  only_fixes_file_effects (validate_fixes self path fixes) self
    (validate_fixes_args path) fixes w ∧
  only_fixes_file_effects (apply_fixes self path fixes create_backup) self
    (λ name, apply_fixes_args path name (default true create_backup)) fixes w.
Proof.
  split; [apply random_name_fresh |].
  split; apply with_fixes_file_effects.
Qed.

(** C7, amended: as long as the project path is not itself the string
    [--backup], the arguments [apply_fixes] hands to the spawned process
    hold the subcommand [apply], and the flag [--backup] exactly when
    [create_backup] (true when left out) is true; those of
    [validate_fixes] hold [validate] and never [--backup].  The same goes
    for the whole command line when neither the binary path nor the
    configuration path is that string. *)
Theorem backup_flag_follows_create_backup self path fixes create_backup w :
  path ≠ "--backup" →
  let name := tmp_name (files w) in
  let apply_args := apply_fixes_args path name (default true create_backup) in
  let validate_args := validate_fixes_args path name in
  spawned (events (apply_fixes self path fixes create_backup w).2) =
    spawned (events w) ++
    (if fixes_ok fixes then [command_line self apply_args] else []) ∧
  "apply" ∈ apply_args ∧
  ("--backup" ∈ apply_args ↔ default true create_backup = true) ∧
  spawned (events (validate_fixes self path fixes w).2) =
    spawned (events w) ++
    (if fixes_ok fixes then [command_line self validate_args] else []) ∧
  "validate" ∈ validate_args ∧
  ("--backup" ∉ validate_args) ∧
  (rust_binary_path self ≠ "--backup" → config_path self ≠ "--backup" →
   ("--backup" ∈ command_line self apply_args ↔
    default true create_backup = true) ∧
   ("--backup" ∉ command_line self validate_args)).
Proof.
  intros Hpath name apply_args validate_args.
  pose proof (tmp_name_not_flag (files w)) as Hname. fold name in Hname.
  assert ("--backup" ∈ apply_args ↔ default true create_backup = true) as Hflag.
  { unfold apply_args, apply_fixes_args.
    destruct (default true create_backup).
    - split; [done |]. intros _. do 4 right. left.
    - split; [|done]. intros Hin.
      repeat (apply elem_of_cons in Hin as [Hin|Hin]; [congruence |]).
      by apply elem_of_nil in Hin. }
  assert ("--backup" ∉ validate_args) as Hnever.
  { intros Hin. unfold validate_args, validate_fixes_args in Hin.
    repeat (apply elem_of_cons in Hin as [Hin|Hin]; [congruence |]).
    by apply elem_of_nil in Hin. }
  split; [apply with_fixes_file_spawned |].
  split; [unfold apply_args, apply_fixes_args; destruct (default true _); left |].
  split; [done |].
  split; [apply with_fixes_file_spawned |].
  split; [left |]. split; [done |].
  intros Hbinary Hconfig. unfold command_line.
  assert (∀ args, "--backup" ∈ [rust_binary_path self; "--config"; config_path self]
                                 ++ args ↔ "--backup" ∈ args) as Hcmd.
  { intros args. rewrite elem_of_app. split; [|by right].
    intros [Hin|Hin]; [|done].
    repeat (apply elem_of_cons in Hin as [Hin|Hin]; [congruence |]).
    by apply elem_of_nil in Hin. }
  by rewrite !Hcmd.
Qed.

(** C8: handed a dictionary that [json.dump] refuses, each of the three
    methods raises from inside its [with] block, before its
    [try]/[finally] is entered: the fixes file it created is still there
    when the call returns. *)
Theorem fixes_file_left_behind self path owner repo branch title w :
  let fixes := FixesDict [("patch", PyBytes "x")] in
  let name := tmp_name (files w) in
  let left_behind (m : M pyval) :=
    (m w).1 = Raise (TypeError "Object is not JSON serializable") ∧
    files w !! name = None ∧
    files (m w).2 !! name = Some (json_partial (PyDict [("patch", PyBytes "x")])) in
  left_behind (validate_fixes self path fixes) ∧
  left_behind (apply_fixes self path fixes None) ∧
  left_behind (create_github_pr self owner repo branch title fixes).
Proof.
  cbn zeta.
  rewrite validate_fixes_shape, apply_fixes_shape, create_github_pr_shape.
  rewrite !with_fixes_file_unfold. cbn.
  pose proof (random_name_fresh (files w)) as Hfresh. fold (tmp_name (files w)) in Hfresh.
  by rewrite lookup_insert_eq.
Qed.

(** The other calls: once the fixes are written, the fixes file is gone
    when the call returns, however the call ends. *)
Lemma fixes_file_removed self path owner repo branch title create_backup fixes w :
  fixes_ok fixes = true →
  let name := tmp_name (files w) in
  files (validate_fixes self path fixes w).2 !! name = None ∧
  files (apply_fixes self path fixes create_backup w).2 !! name = None ∧
  files (create_github_pr self owner repo branch title fixes w).2 !! name = None.
Proof.
  intros Hok name. unfold name.
  rewrite validate_fixes_shape, apply_fixes_shape, create_github_pr_shape.
  by rewrite !with_fixes_file_removed.
Qed.

(** C9, amended: called without input ([None] or the empty string), for
    a process that runs to an exit status and whose two outputs decode as
    text, [_run_command] returns the standard output exactly when the
    status is 0, and raises a [RuntimeError] exactly when it is not; the
    message carries the status and the standard error, or the standard
    output when the standard error is empty. *)
Theorem run_command_exit_status self args input_data w p fs out err :
  stdin_of input_data = None →
  spawn (command_line self args) None (files w) = (Some p, fs) →
  decode (stdout p) = Some out →
  decode (stderr p) = Some err →
  let r := (_run_command self args input_data w).1 in
  (r = Return out ↔ returncode p = 0%Z) ∧
  ((∃ msg, r = Raise (RuntimeError msg)) ↔ returncode p ≠ 0%Z) ∧
  (returncode p ≠ 0%Z →
   r = Raise (RuntimeError
         ("Command failed with exit code " +:+ pretty (returncode p) +:+ ": " +:+
          (if decide (err = "") then out else err)))).
Proof.
  intros Hinput Hspawn Hout Herr r. unfold r.
  rewrite run_command_unfold by done. cbn zeta.
  rewrite Hspawn. cbn [fst command_result]. rewrite Hout, Herr.
  destruct (Z.eqb_spec (returncode p) 0) as [Hz|Hnz].
  - split; [done |]. split; [|done]. split; [by intros [msg ?] | done].
  - split; [split; [done | by intros ?] |].
    split; [split; [done | by eexists] | done].
Qed.

(** C10: when the spawned process succeeds, what the methods make of its
    standard output [out]: [analyze_project] parses it as JSON when the
    format is [json] (the default) and wraps it as [{"output": out}]
    otherwise; the five other methods parse it whatever it is, so an
    output that [json.loads] rejects makes them raise.  The three methods
    with a fixes file do so through the [finally] that removes the
    file. *)
Theorem stdout_is_parsed_as_json self w out fs :
  (∀ path output_format,
     succeeds (command_line self ["analyze"; path; "--output";
                                  default "json" output_format])
       (files w) out fs →
     (analyze_project self path output_format w).1 =
     if decide (default "json" output_format = "json")
     then match json_loads out with
          | Some v => Return v
          | None => Raise (JSONDecodeError out)
          end
     else Return (PyDict [("output", PyStr out)])) ∧
  (∀ description output_dir name,
     succeeds (command_line self ["generate"; "--description"; description;
                                  "--output"; output_dir; "--name"; name])
       (files w) out fs →
     (generate_project self description output_dir name w).1 = parse out) ∧
  (∀ owner repo branch,
     succeeds (command_line self ["github"; "analyze"; "--owner"; owner;
                                  "--repo"; repo; "--branch"; default "main" branch])
       (files w) out fs →
     (analyze_github_repo self owner repo branch w).1 = parse out) ∧
  (∀ m mk_args fixes,
     (∃ path, m = validate_fixes self path fixes ∧
              mk_args = validate_fixes_args path) ∨
     (∃ path create_backup, m = apply_fixes self path fixes create_backup ∧
        mk_args = λ name, apply_fixes_args path name (default true create_backup)) ∨
     (∃ owner repo branch title,
        m = create_github_pr self owner repo branch title fixes ∧
        mk_args = create_github_pr_args owner repo branch title) →
     fixes_ok fixes = true →
     let name := tmp_name (files w) in
     succeeds (command_line self (mk_args name))
       (<[name := fixes_text fixes]> (files w)) out fs →
     (m w).1 = match fs !! name with
               | Some _ => parse out
               | None => Raise (FileNotFoundError name)
               end) ∧
  (json_loads out = None → parse out = Raise (JSONDecodeError out)) ∧
  (∀ v, parse out = Return v ↔ json_loads out = Some v).
Proof.
  assert (∀ args, succeeds (command_line self args) (files w) out fs →
                  _run_command self args None w =
                  (Return out, (_run_command self args None w).2)) as Hrun.
  { intros args (p & Hspawn & Hz & Hout & [err Herr]).
    rewrite run_command_unfold by done. cbn zeta. rewrite Hspawn.
    cbn [fst snd command_result]. by rewrite Hout, Herr, Hz. }
  split; [|split; [|split; [|split; [|split]]]].
  - intros path output_format Hok. unfold analyze_project, bind.
    rewrite (Hrun _ Hok). destruct (decide _); [|done].
    by rewrite loads_unfold.
  - intros description output_dir name Hok. unfold generate_project, bind.
    by rewrite (Hrun _ Hok), loads_unfold.
  - intros owner repo branch Hok. unfold analyze_github_repo, bind.
    by rewrite (Hrun _ Hok), loads_unfold.
  - intros m mk_args fixes Hm Hfixes name (p & Hspawn & Hz & Hout & [err Herr]).
    assert (m = with_fixes_file self mk_args fixes) as ->.
    { destruct Hm as [(? & -> & ->)|[(? & ? & -> & ->)|(? & ? & ? & ? & -> & ->)]];
        reflexivity. }
    rewrite with_fixes_file_unfold, Hfixes. cbn zeta. fold name.
    rewrite Hspawn. cbn [fst snd].
    destruct (fs !! name); [|done].
    cbn [fst command_result]. by rewrite Hout, Herr, Hz.
  - intros Hnone. unfold parse. by rewrite Hnone.
  - intros v. unfold parse. destruct (json_loads out); naive_solver.
Qed.
End run_command.

(** *** The theorems at work *)

Import Demo.
#[local] Existing Instance demo_runtime.

(** C7, as stated, fails: a project path spelled [--backup] puts the flag
    on the command line of [validate_fixes], and on that of [apply_fixes]
    with [create_backup] false. *)
Lemma backup_flag_counterexample :
  let name := tmp_name (files world0) in
  spawned (events (validate_fixes (tool "ok") "--backup" (FixesStr "{}") world0).2) =
    [["ok"; "--config"; ".rust-ai-tool.toml";
      "validate"; "--backup"; "--fixes"; name]] ∧
  "--backup" ∈ validate_fixes_args "--backup" name ∧
  spawned (events (apply_fixes (tool "ok") "--backup" (FixesStr "{}")
                     (Some false) world0).2) =
    [["ok"; "--config"; ".rust-ai-tool.toml";
      "apply"; "--backup"; "--fixes"; name]] ∧
  "--backup" ∈ apply_fixes_args "--backup" name (default true (Some false)).
Proof.
  cbn zeta. split; [by vm_compute |].
  split; [apply list_elem_of_In; vm_compute; tauto |].
  split; [by vm_compute |]. apply list_elem_of_In; vm_compute; tauto.
Qed.

Lemma backup_flag_witness :
  "proj" ≠ "--backup" ∧
  ("--backup" ∈ apply_fixes_args "proj" (tmp_name (files world0)) false ↔
   false = true) ∧
  "--backup" ∉ validate_fixes_args "proj" (tmp_name (files world0)).
Proof.
  assert ("proj" ≠ "--backup") as Hpath by discriminate.
  split; [exact Hpath |].
  destruct (backup_flag_follows_create_backup (tool "ok") "proj" (FixesStr "{}")
              (Some false) world0 Hpath) as (_ & _ & Hflag & _ & _ & Hnever & _).
  split; [exact Hflag | exact Hnever].
Defined.

(** C9, as stated, fails.  A process that exits with status 0 after
    printing a byte the locale cannot decode: the call raises
    [UnicodeDecodeError] instead of returning the output.  A process that
    exits with status 2 after such a byte on its standard error: the same
    error, and no [RuntimeError].  And a call with an input: the bytes it
    is encoded to do not go with [text=True], the call raises whatever
    the process would have done. *)
Lemma run_command_exit_status_counterexample :
  (spawn (command_line (tool "raw") ["analyze"; "proj"]) None (files world0)).1 =
    Some {| returncode := 0; stdout := byte_ff; stderr := "" |} ∧
  (_run_command (tool "raw") ["analyze"; "proj"] None world0).1 =
    Raise (UnicodeDecodeError byte_ff) ∧
  (spawn (command_line (tool "raw-fail") ["analyze"; "proj"]) None (files world0)).1 =
    Some {| returncode := 2; stdout := ""; stderr := byte_ff |} ∧
  (_run_command (tool "raw-fail") ["analyze"; "proj"] None world0).1 =
    Raise (UnicodeDecodeError byte_ff) ∧
  (spawn (command_line (tool "ok") ["analyze"; "proj"]) None (files world0)).1 =
    Some {| returncode := 0; stdout := "{}"; stderr := "" |} ∧
  (_run_command (tool "ok") ["analyze"; "proj"] (Some "{}") world0).1 =
    Raise (AttributeError "'bytes' object has no attribute 'encode'").
Proof. repeat split; reflexivity. Qed.

Lemma run_command_exit_status_witness :
  stdin_of (Some "") = None ∧
  spawn (command_line (tool "fail") ["analyze"; "proj"]) None (files world0)
    = (Some {| returncode := 3; stdout := "out"; stderr := "boom" |}, files world0) ∧
  decode "out" = Some "out" ∧
  decode "boom" = Some "boom" ∧
  (_run_command (tool "fail") ["analyze"; "proj"] (Some "") world0).1 =
    Raise (RuntimeError "Command failed with exit code 3: boom").
Proof.
  assert (stdin_of (Some "") = None) as Hinput by reflexivity.
  assert (spawn (command_line (tool "fail") ["analyze"; "proj"]) None
            (files world0)
          = (Some {| returncode := 3; stdout := "out"; stderr := "boom" |},
             files world0)) as Hspawn by reflexivity.
  assert (decode "out" = Some "out") as Hout by reflexivity.
  assert (decode "boom" = Some "boom") as Herr by reflexivity.
  split; [exact Hinput |]. split; [exact Hspawn |].
  split; [exact Hout |]. split; [exact Herr |].
  destruct (run_command_exit_status (tool "fail") ["analyze"; "proj"] (Some "")
              world0 _ _ "out" "boom" Hinput Hspawn Hout Herr)
    as (_ & _ & Hraise).
  apply Hraise. discriminate.
Defined.

Lemma stdout_is_parsed_as_json_witness :
  succeeds (command_line (tool "garbage") ["analyze"; "proj"; "--output"; "markdown"])
    (files world0) "done" (files world0) ∧
  (analyze_project (tool "garbage") "proj" (Some "markdown") world0).1 =
    Return (PyDict [("output", PyStr "done")]) ∧
  succeeds (command_line (tool "garbage")
              ["generate"; "--description"; "a tool"; "--output"; "out";
               "--name"; "csv2json"])
    (files world0) "done" (files world0) ∧
  (generate_project (tool "garbage") "a tool" "out" "csv2json" world0).1 =
    Raise (JSONDecodeError "done") ∧
  fixes_ok (FixesStr "{}") = true ∧
  (validate_fixes (tool "garbage") "proj" (FixesStr "{}") world0).1 =
    Raise (JSONDecodeError "done").
Proof.
  assert (∀ args fs, succeeds (command_line (tool "garbage") args) fs "done" fs)
    as Hok.
  { intros args fs. exists {| returncode := 0; stdout := "done"; stderr := "" |}.
    split; [reflexivity |]. split; [reflexivity |]. split; [reflexivity |].
    by exists "". }
  split; [apply Hok |]. split.
  { destruct (stdout_is_parsed_as_json (tool "garbage") world0 "done" (files world0))
      as (Hanalyze & _).
    by rewrite (Hanalyze "proj" (Some "markdown") (Hok _ _)). }
  split; [apply Hok |]. split.
  { destruct (stdout_is_parsed_as_json (tool "garbage") world0 "done" (files world0))
      as (_ & Hgenerate & _).
    by rewrite (Hgenerate "a tool" "out" "csv2json" (Hok _ _)). }
  split; [reflexivity |].
  set (name := tmp_name (files world0)).
  destruct (stdout_is_parsed_as_json (tool "garbage") world0 "done"
              (<[name := "{}"]> (files world0)))
    as (_ & _ & _ & Hfixes & _).
  rewrite (Hfixes (validate_fixes (tool "garbage") "proj" (FixesStr "{}"))
             (validate_fixes_args "proj") (FixesStr "{}")
             (or_introl (ex_intro _ "proj" (conj eq_refl eq_refl)))
             eq_refl (Hok _ _)).
  fold name. by rewrite lookup_insert_eq.
Defined.

Example run_command_quiet_failure :
  (_run_command (tool "quiet-fail") [] None world0).1 =
  Raise (RuntimeError "Command failed with exit code -9: out").
Proof. reflexivity. Qed.

Example validate_fixes_edits_nothing_itself :
  let w := (validate_fixes (tool "edit") "proj" (FixesStr "{}") world0).2 in
  files w = {[ "proj/src/lib.rs" := "fixed" ]} ∧
  filter (λ e, is_fs_event e = true) (events w) =
    [EvCreate (tmp_name (files world0)); EvWrite (tmp_name (files world0)) "{}";
     EvUnlink (tmp_name (files world0))].
Proof. by vm_compute. Qed.

Example validate_fixes_leaks_on_bytes :
  let r := validate_fixes (tool "ok") "proj"
             (FixesDict [("patch", PyBytes "x")]) world0 in
  r.1 = Raise (TypeError "Object is not JSON serializable") ∧
  files r.2 !! tmp_name (files world0) = Some "{" ∧
  spawned (events r.2) = [].
Proof. by vm_compute. Qed.

End PythonApiSpec.

(** ** Part IV: properties of the engine *)

Module FixEngineSpec.
Import FixEngine.
Local Open Scope nat_scope.

(** *** Lists *)

Lemma before_cons {A} (a b z : A) l :
  before a b (z :: l) ↔ (z = a ∧ b ∈ l) ∨ before a b l.
Proof.
  split.
  - intros (l1 & l2 & l3 & Heq). destruct l1 as [|z' l1]; simplify_eq/=.
    + left. split; [done |]. apply elem_of_app. right. left.
    + right. by exists l1, l2, l3.
  - intros [[-> Hin]|(l1 & l2 & l3 & ->)].
    + apply list_elem_of_split in Hin as (l2 & l3 & ->). by exists [], l2, l3.
    + by exists (z :: l1), l2, l3.
Qed.

Lemma filter_nothing_lost (l : list string) : filter (λ q, q ∉ []) l = l.
Proof.
  induction l as [|q l IH]; [done |].
  rewrite filter_cons_True by apply not_elem_of_nil. by rewrite IH.
Qed.

(** *** Sorting by start *)

Lemma insert_by_start_Permutation x l : insert_by_start x l ≡ₚ x :: l.
Proof.
  induction l as [|y l IH]; [done |]. cbn.
  destruct (decide _); [done |]. by rewrite IH, Permutation_swap.
Qed.

Lemma sort_by_start_Permutation l : sort_by_start l ≡ₚ l.
Proof.
  induction l as [|x l IH]; [done |]. cbn.
  by rewrite insert_by_start_Permutation, IH.
Qed.

Lemma insert_by_start_sorted x l :
  StronglySorted by_start l → StronglySorted by_start (insert_by_start x l).
Proof.
  induction 1 as [|y l Hsorted IH Hall]; cbn.
  - repeat constructor.
  - destruct (decide (p_start x ≤ p_start y)) as [Hle|Hgt].
    + constructor; [by constructor |]. constructor; [done |].
      eapply Forall_impl; [exact Hall |]. unfold by_start. intros z ?. lia.
    + constructor; [done |]. rewrite insert_by_start_Permutation.
      constructor; [unfold by_start; lia | done].
Qed.

Lemma sort_by_start_sorted l : StronglySorted by_start (sort_by_start l).
Proof.
  induction l as [|x l IH]; cbn; [constructor | by apply insert_by_start_sorted].
Qed.

Lemma insert_by_start_keeps a b x l :
  before a b l → before a b (insert_by_start x l).
Proof.
  induction l as [|y l IH]; cbn.
  - by intros ([|??] & ? & ? & ?).
  - intros Hbefore. destruct (decide _).
    + apply before_cons. by right.
    + apply before_cons in Hbefore as [[-> Hin]|Hbefore]; apply before_cons.
      * left. split; [done |]. rewrite insert_by_start_Permutation. by right.
      * right. by apply IH.
Qed.

Lemma insert_by_start_new x b l :
  b ∈ l → before x b (insert_by_start x l) ∨ before b x (insert_by_start x l).
Proof.
  induction l as [|y l IH]; cbn; [by intros ?%elem_of_nil |].
  intros Hin. destruct (decide _).
  - left. apply before_cons. by left.
  - apply elem_of_cons in Hin as [->|Hin].
    + right. apply before_cons. left. split; [done |].
      rewrite insert_by_start_Permutation. left.
    + destruct (IH Hin); [left | right]; apply before_cons; by right.
Qed.

Lemma insert_by_start_first x b l :
  b ∈ l → p_start x ≤ p_start b → before x b (insert_by_start x l).
Proof.
  induction l as [|y l IH]; cbn; [by intros ?%elem_of_nil |].
  intros Hin Hle. destruct (decide _) as [|Hgt].
  - apply before_cons. by left.
  - apply elem_of_cons in Hin as [->|Hin]; [done |].
    apply before_cons. right. by apply IH.
Qed.

(** Sorting keeps two edits at two places, and keeps their order when the
    first does not start after the second. *)
Lemma sort_by_start_before a b l :
  before a b l →
  (before a b (sort_by_start l) ∨ before b a (sort_by_start l)) ∧
  (p_start a ≤ p_start b → before a b (sort_by_start l)).
Proof.
  induction l as [|z l IH]; [by intros ([|??] & ? & ? & ?) |].
  intros [[-> Hin]|Hbefore]%before_cons; cbn.
  - rewrite <- sort_by_start_Permutation in Hin. split.
    + by apply insert_by_start_new.
    + by apply insert_by_start_first.
  - destruct (IH Hbefore) as [Hany Hstable]. split.
    + destruct Hany; [left | right]; by apply insert_by_start_keeps.
    + intros Hle. by apply insert_by_start_keeps, Hstable.
Qed.

(** *** Walking adjacent pairs *)

Lemma walk_pairs_cons x y l :
  walk_pairs (x :: y :: l) =
  (if decide (p_start y < p_stop x)
   then [OverlapConflict (p_edit x) (p_edit y)] else []) ++ walk_pairs (y :: l).
Proof. cbn. by destruct (decide _). Qed.

Lemma elem_of_walk_pairs i l :
  i ∈ walk_pairs l ↔
  ∃ n x y, l !! n = Some x ∧ l !! S n = Some y ∧ p_start y < p_stop x ∧
           i = OverlapConflict (p_edit x) (p_edit y).
Proof.
  induction l as [|x l IH];
    [cbn; split; [by intros ?%elem_of_nil | by intros (n & ? & ? & ? & _)] |].
  destruct l as [|y l].
  { cbn. split; [by intros ?%elem_of_nil |]. by intros (n & ? & ? & _ & ? & _). }
  rewrite walk_pairs_cons, elem_of_app, IH. split.
  - intros [Hhead|(n & x' & y' & ? & ? & ? & ?)].
    + destruct (decide _) as [Hlt|]; [|by apply elem_of_nil in Hhead].
      apply list_elem_of_singleton in Hhead. by exists 0, x, y.
    + by exists (S n), x', y'.
  - intros ([|n] & x' & y' & Hx & Hy & Hlt & ->); simplify_eq/=.
    + left. rewrite decide_True by done. left.
    + right. by exists n, x', y'.
Qed.

Lemma walk_pairs_detects u v l :
  StronglySorted by_start l → before u v l → p_start v < p_stop u →
  walk_pairs l ≠ [].
Proof.
  induction 1 as [|z l Hsorted IH Hall]; [by intros ([|??] & ? & ? & ?) |].
  intros [[-> Hin]|Hbefore]%before_cons Hlt.
  - destruct l as [|y l]; [by apply elem_of_nil in Hin |].
    rewrite walk_pairs_cons.
    assert (p_start y ≤ p_start v) as Hle.
    { apply elem_of_cons in Hin as [->|Hin]; [done |].
      apply StronglySorted_inv in Hsorted as [_ Hy].
      by apply (proj1 (Forall_forall _ _) Hy). }
    rewrite decide_True by lia. done.
  - specialize (IH Hbefore Hlt). destruct l as [|y l]; [done |].
    rewrite walk_pairs_cons. by destruct (decide _).
Qed.

(** *** The project on disk *)

Lemma later_0 w : later 0 (tree w) [] w = w.
Proof. destruct w. unfold later. cbn. by rewrite (right_id_L [] (++)). Qed.

Lemma later_later n m t t' j j' w :
  later n t' j' (later m t j w) = later (m + n) t' (j ++ j') w.
Proof.
  unfold later. cbn. f_equal; [by rewrite drop_drop | by rewrite (assoc_L (++))].
Qed.

Lemma upcoming_later n t j w k : upcoming (later n t j w) k = upcoming w (n + k).
Proof. unfold upcoming, later. cbn. by rewrite lookup_drop. Qed.

Lemma io_attempt_unfold w :
  io_attempt w = (negb (upcoming w 0), later 1 (tree w) [] w).
Proof.
  destruct w as [t [|f fl] j]; unfold io_attempt, upcoming, later; cbn;
    by rewrite (right_id_L [] (++)).
Qed.

Lemma write_file_unfold ev p c w :
  write_file ev p c w =
  if upcoming w 0 then (false, later 1 (tree w) [] w)
  else (true, later 1 (<[p := c]> (tree w)) [ev p] w).
Proof.
  unfold write_file. rewrite io_attempt_unfold.
  destruct (upcoming w 0); cbn; [done |].
  unfold later. cbn. by rewrite (right_id_L [] (++)).
Qed.

Lemma read_file_unfold p w :
  read_file p w =
  ((if upcoming w 0 then None else tree w !! p), later 1 (tree w) [] w).
Proof. unfold read_file. rewrite io_attempt_unfold. by destruct (upcoming w 0). Qed.

Lemma lookup_write_all new ps t q :
  write_all new ps t !! q =
  if decide (q ∈ ps) then from_option Some (t !! q) (new !! q) else t !! q.
Proof.
  revert t. induction ps as [|p ps IH]; intros t; [done |].
  change (write_all new (p :: ps) t) with
    (write_all new ps (match new !! p with Some c => <[p := c]> t | None => t end)).
  rewrite IH. destruct (decide (q ∈ ps)) as [Hin|Hnotin].
  - rewrite decide_True by (by right).
    destruct (new !! q) eqn:Hq; [done |]. cbn.
    destruct (new !! p) eqn:Hp; [|done].
    rewrite lookup_insert_ne; [done | congruence].
  - destruct (decide (q = p)) as [->|Hne].
    + rewrite decide_True by left. destruct (new !! p); cbn; [|done].
      by rewrite lookup_insert_eq.
    + rewrite decide_False by (by intros [?|?]%elem_of_cons).
      destruct (new !! p); [by rewrite lookup_insert_ne | done].
Qed.

(** *** Backup, mutation, restoration when no fault strikes *)

Lemma backup_files_ok ps acc w :
  (∀ q, q ∈ ps → is_Some (tree w !! q)) →
  (∀ n, n < length ps → upcoming w n = false) →
  ∃ m, backup_files ps acc w = (inr m, later (length ps) (tree w) [] w) ∧
       (∀ q, m !! q = if decide (q ∈ ps) then tree w !! q else acc !! q).
Proof.
  revert acc w. induction ps as [|p ps IH]; intros acc w Hfiles Hfaults; cbn.
  - exists acc. by rewrite later_0.
  - rewrite read_file_unfold, (Hfaults 0) by (cbn; lia).
    destruct (Hfiles p) as [c Hc]; [left |]. rewrite Hc.
    destruct (IH (<[p := c]> acc) (later 1 (tree w) [] w)) as (m & Hm & Hsaved).
    + intros q Hq. cbn. apply Hfiles. by right.
    + intros n Hn. rewrite upcoming_later. apply Hfaults. cbn. lia.
    + exists m. rewrite Hm, later_later. cbn. split; [done |].
      intros q. rewrite Hsaved. destruct (decide (q ∈ ps)) as [Hin|Hnotin].
      * by rewrite decide_True by (by right).
      * destruct (decide (q = p)) as [->|Hne].
        -- by rewrite decide_True, lookup_insert_eq by left.
        -- rewrite decide_False by (by intros [?|?]%elem_of_cons).
           by rewrite lookup_insert_ne.
Qed.

Lemma mutate_prefix new pre rest w :
  (∀ q, q ∈ pre → is_Some (new !! q)) →
  (∀ n, n < length pre → upcoming w n = false) →
  mutate new (pre ++ rest) w =
  let '((done, stopped), w') :=
    mutate new rest (later (length pre) (write_all new pre (tree w)) (Mutated <$> pre) w) in
  ((pre ++ done, stopped), w').
Proof.
  revert w. induction pre as [|p pre IH]; intros w Hnew Hfaults; cbn [app length].
  - cbn. rewrite later_0. by destruct (mutate new rest w) as [[??]?].
  - cbn [mutate]. destruct (Hnew p) as [c Hc]; [left |]. rewrite Hc.
    rewrite write_file_unfold, (Hfaults 0) by (cbn; lia).
    rewrite IH.
    + rewrite later_later. cbn [tree write_all foldl fmap list_fmap]. rewrite Hc.
      cbn. by destruct (mutate new rest _) as [[??]?].
    + intros q Hq. apply Hnew. by right.
    + intros n Hn. rewrite upcoming_later. apply Hfaults. cbn. lia.
Qed.

Lemma mutate_ok new ps w :
  (∀ q, q ∈ ps → is_Some (new !! q)) →
  (∀ n, n < length ps → upcoming w n = false) →
  mutate new ps w =
  ((ps, None), later (length ps) (write_all new ps (tree w)) (Mutated <$> ps) w).
Proof.
  intros Hnew Hfaults. pose proof (mutate_prefix new ps [] w Hnew Hfaults) as Hrun.
  cbn in Hrun. by rewrite !(right_id_L [] (++)) in Hrun.
Qed.

Lemma restore_ok record ps w :
  (∀ q, q ∈ ps → is_Some (saved record !! q)) →
  (∀ n, n < length ps → upcoming w n = false) →
  restore record ps w =
  ([], later (length ps) (write_all (saved record) ps (tree w)) (Restored <$> ps) w).
Proof.
  revert w. induction ps as [|p ps IH]; intros w Hsaved Hfaults; cbn [restore].
  - cbn. by rewrite later_0.
  - destruct (Hsaved p) as [c Hc]; [left |]. rewrite Hc.
    rewrite write_file_unfold, (Hfaults 0) by (cbn; lia).
    rewrite IH.
    + rewrite later_later. cbn [tree write_all foldl length]. by rewrite Hc.
    + intros q Hq. apply Hsaved. by right.
    + intros n Hn. rewrite upcoming_later. apply Hfaults. cbn. lia.
Qed.

(** *** Touched files and snapshots *)

Global Instance path_le_total : Total path_le.
Proof. intros p q. apply String.leb_total. Qed.

Lemma elem_of_touched p fs :
  p ∈ touched fs ↔ ∃ e, e ∈ edits fs ∧ file_path e = p.
Proof.
  unfold touched. rewrite merge_sort_Permutation, elem_of_remove_dups, list_elem_of_fmap.
  split; [intros (e & -> & ?) | intros (e & ? & <-)]; by exists e.
Qed.

Lemma NoDup_touched fs : NoDup (touched fs).
Proof. unfold touched. rewrite merge_sort_Permutation. apply NoDup_remove_dups. Qed.

Lemma touched_sorted fs : Sorted path_le (touched fs).
Proof. apply Sorted_merge_sort, _. Qed.

Lemma lookup_take_snapshot fs w p :
  take_snapshot fs w !! p = if decide (p ∈ touched fs) then tree w !! p else None.
Proof.
  unfold take_snapshot. destruct (decide (p ∈ touched fs)) as [Hin|Hnotin].
  - destruct (tree w !! p) as [c|] eqn:Hc.
    + by apply map_lookup_filter_Some_2.
    + apply map_lookup_filter_None. by left.
  - apply map_lookup_filter_None. right. by intros c _.
Qed.

Lemma lookup_dry_apply snapshot fs p :
  dry_apply snapshot fs !! p =
  if decide (p ∈ touched fs)
  then (λ c, dry_apply_file c (edits_of p fs)) <$> snapshot !! p else None.
Proof.
  unfold dry_apply. rewrite map_lookup_imap.
  destruct (snapshot !! p); cbn; by destruct (decide _).
Qed.

(** *** The validator *)

Section validator.
Context (checker : string → list string → option string).

Lemma is_applicable_true snapshot fs :
is_applicable (validate checker snapshot fs) = true ↔
∀ p, p ∈ touched fs → file_issues checker snapshot fs p = [].
Proof.
cbn. rewrite <- Is_true_true, forallb_True, Forall_forall.
apply forall_proper; intros p. apply forall_proper; intros _.
unfold no_issue. by destruct (file_issues _ _ _ _).
Qed.

Lemma is_applicable_false snapshot fs p :
p ∈ touched fs → file_conflicts snapshot fs p ≠ [] →
is_applicable (validate checker snapshot fs) = false.
Proof.
intros Hp Hconf. apply not_true_is_false. intros Happ.
apply (proj1 (is_applicable_true _ _)) with (p := p) in Happ; [|done].
unfold file_issues in Happ.
apply app_eq_nil in Happ as [_ Happ]. by apply app_eq_nil in Happ as [? _].
Qed.

Lemma applicable_file snapshot fs p :
is_applicable (validate checker snapshot fs) = true → p ∈ touched fs →
∃ c, snapshot !! p = Some c ∧
     dry_apply snapshot fs !! p = Some (dry_apply_file c (edits_of p fs)).
Proof.
intros Happ Hp. apply (proj1 (is_applicable_true _ _)) with (p := p) in Happ; [|done].
unfold file_issues in Happ. apply app_eq_nil in Happ as [Hmissing _].
destruct (snapshot !! p) as [c|] eqn:Hc; [|done].
exists c. split; [done |]. by rewrite lookup_dry_apply, decide_True, Hc.
Qed.

(** The validator reads the snapshot at the touched files only. *)
Lemma validate_reads_touched s1 s2 fs :
(∀ p, p ∈ touched fs → s1 !! p = s2 !! p) →
validate checker s1 fs = validate checker s2 fs.
Proof.
intros Hagree.
assert (∀ p, p ∈ touched fs → file_conflicts s1 fs p = file_conflicts s2 fs p)
  as Hconf.
{ intros p Hp. unfold file_conflicts. by rewrite Hagree. }
assert (detect_conflicts s1 fs = detect_conflicts s2 fs) as Hdetect.
{ unfold detect_conflicts. induction (touched fs) as [|p ps IH]; [done |].
  cbn. rewrite Hconf by left. f_equal. apply IH.
  - intros q Hq. apply Hagree. by right.
  - intros q Hq. apply Hconf. by right. }
assert (∀ p, p ∈ touched fs →
          file_issues checker s1 fs p = file_issues checker s2 fs p) as Hissues.
{ intros p Hp. unfold file_issues, semantic_issues.
  by rewrite Hdetect, !lookup_dry_apply, Hconf, Hagree. }
unfold validate. f_equal.
- f_equal. apply list_fmap_ext. intros i p Hp%list_elem_of_lookup_2.
  by rewrite Hissues.
- induction (touched fs) as [|p ps IH]; [done |].
  cbn. rewrite Hissues by left. f_equal. apply IH.
  + intros q Hq. apply Hagree. by right.
  + intros q Hq. apply Hconf. by right.
  + intros q Hq. apply Hissues. by right.
Qed.
End validator.

(** *** Detection *)

Lemma before_filter {A} (P : A → Prop) `{!∀ x, Decision (P x)} a b l :
  before a b l → P a → P b → before a b (filter P l).
Proof.
  intros (l1 & l2 & l3 & ->) Ha Hb.
  exists (filter P l1), (filter P l2), (filter P l3).
  rewrite filter_app, filter_cons_True, filter_app, filter_cons_True by done. done.
Qed.

Lemma before_omap {A B} (f : A → option B) a b a' b' l :
  before a b l → f a = Some a' → f b = Some b' → before a' b' (omap f l).
Proof.
  intros (l1 & l2 & l3 & ->) Ha Hb.
  exists (omap f l1), (omap f l2), (omap f l3).
  rewrite omap_app. cbn. rewrite Ha, omap_app. cbn. by rewrite Hb.
Qed.

Lemma place_Some c e x : place c e = Some x →
  p_edit x = e ∧ resolve c e = Located (p_start x) (p_stop x).
Proof.
  unfold place. destruct (resolve c e); [|done..]. by intros [= <-].
Qed.

Lemma place_Located c e a b : resolve c e = Located a b →
  place c e = Some {| p_start := a; p_stop := b; p_edit := e |}.
Proof. unfold place. by intros ->. Qed.

Lemma staleness_no_overlap c e a b : OverlapConflict a b ∉ staleness c e.
Proof.
  unfold staleness. destruct (resolve c e); [destruct (matches_at _ _ _ _) |..];
    intros Hin; repeat (apply elem_of_cons in Hin as [?|Hin]; [done |]);
    by apply elem_of_nil in Hin.
Qed.

Lemma overlap_detected c es e1 e2 :
  before e1 e2 es → spans_overlap c e1 e2 → detect_file c es ≠ [].
Proof.
  intros Hbefore (a1 & b1 & a2 & b2 & H1 & H2 & Hlt1 & Hlt2).
  apply place_Located in H1, H2.
  pose proof (before_omap _ _ _ _ _ _ Hbefore H1 H2) as Hplaced.
  apply sort_by_start_before in Hplaced as [[Hsorted|Hsorted] _];
    eapply walk_pairs_detects in Hsorted; cbn;
    try apply sort_by_start_sorted; try done.
  all: unfold detect_file; by intros [? _]%app_eq_nil.
Qed.

(** *** The apply engine *)

Section apply_engine.
Context (checker : string → list string → option string).

Lemma apply_rejected fs create_backup w :
is_applicable (validate checker (take_snapshot fs w) fs) = false →
(apply checker fs create_backup w).2 = w ∧
status (apply checker fs create_backup w).1 = RolledBack ∧
succeeded (apply checker fs create_backup w).1 = [].
Proof. intros Hrej. unfold apply. by rewrite Hrej. Qed.

Lemma applicable_on_disk fs w p :
is_applicable (validate checker (take_snapshot fs w) fs) = true → p ∈ touched fs →
∃ c, tree w !! p = Some c ∧
     dry_apply (take_snapshot fs w) fs !! p = Some (dry_apply_file c (edits_of p fs)).
Proof.
intros Happ Hp. destruct (applicable_file _ _ _ p Happ Hp) as (c & Hc & Hdry).
exists c. split; [|done]. by rewrite lookup_take_snapshot, decide_True in Hc.
Qed.

Lemma begin_backup_ok fs w :
(∀ q, q ∈ touched fs → is_Some (tree w !! q)) →
(∀ n, n < length (touched fs) → upcoming w n = false) →
∃ record,
  begin_backup fs w = (inr record, later (length (touched fs)) (tree w) [] w) ∧
  (∀ q, q ∈ touched fs → saved record !! q = tree w !! q).
Proof.
intros Hfiles Hfaults. unfold begin_backup.
destruct (backup_files_ok (touched fs) ∅ w Hfiles Hfaults) as (m & -> & Hm).
eexists. split; [done |]. intros q Hq. cbn. by rewrite Hm, decide_True.
Qed.

(** What [apply] does once validation and, if asked for, the backup went
  through. *)
Lemma apply_applicable fs (create_backup : bool) w :
is_applicable (validate checker (take_snapshot fs w) fs) = true →
(∀ n, n < (if create_backup then length (touched fs) else 0) →
      upcoming w n = false) →
∃ backup,
  apply checker fs create_backup w =
    mutate_and_report (dry_apply (take_snapshot fs w) fs) (touched fs) backup
      (later (if create_backup then length (touched fs) else 0) (tree w) [] w) ∧
  match backup with
  | Some record =>
      create_backup = true ∧ ∀ q, q ∈ touched fs → saved record !! q = tree w !! q
  | None => create_backup = false
  end.
Proof.
intros Happ Hfaults. unfold apply. rewrite Happ. destruct create_backup.
- destruct (begin_backup_ok fs w) as (record & -> & Hsaved); [|done |].
  + intros q Hq. destruct (applicable_on_disk fs w q) as (c & -> & _); by eauto.
  + by exists (Some record).
- exists None. by rewrite later_0.
Qed.

(** C1, amended: when the validator finds the fix set applicable on the
  snapshot of the project (no missing file, no overlapping, stale or
  ambiguous edit, no checker failure) and none of the reads and writes
  of the apply fails, [apply] commits, and reading back each touched
  file gives the content of the validator's dry-apply on that snapshot;
  the other files are as they were. *)
Theorem apply_matches_dry_apply fs (create_backup : bool) w :
is_applicable (validate checker (take_snapshot fs w) fs) = true →
(∀ n, n < (if create_backup then 2 else 1) * length (touched fs) →
      upcoming w n = false) →
let r := apply checker fs create_backup w in
status r.1 = Committed ∧
succeeded r.1 = touched fs ∧
(∀ p, p ∈ touched fs →
      is_Some (tree r.2 !! p) ∧
      tree r.2 !! p = dry_apply (take_snapshot fs w) fs !! p) ∧
(∀ p, p ∉ touched fs → tree r.2 !! p = tree w !! p).
Proof.
intros Happ Hfaults r.
assert (∀ n, n < (if create_backup then length (touched fs) else 0) →
             upcoming w n = false) as Hreads.
{ intros n Hn. apply Hfaults. destruct create_backup; lia. }
destruct (apply_applicable fs create_backup w Happ Hreads) as (backup & Hrun & _).
assert (∀ q, q ∈ touched fs → is_Some (dry_apply (take_snapshot fs w) fs !! q))
  as Hnew.
{ intros q Hq. destruct (applicable_on_disk fs w q) as (c & _ & ->); by eauto. }
unfold r. rewrite Hrun. unfold mutate_and_report.
rewrite mutate_ok; [|done |].
- cbn. do 2 (split; [done |]). split.
  + intros p Hp. rewrite lookup_write_all, decide_True by done.
    destruct (Hnew p Hp) as [c' Hc']. rewrite Hc'. by eauto.
  + intros p Hp. by rewrite lookup_write_all, decide_False.
- intros n Hn. rewrite upcoming_later. apply Hfaults. destruct create_backup; lia.
Qed.

(** C2: a fix set that holds two edits to one file whose spans overlap is
  not applicable, whatever the snapshot that has the file; and [apply]
  on it leaves the project as it was: no file written, nothing
  journalled. *)
Theorem overlap_is_rejected fs l1 e1 l2 e2 l3 c snapshot create_backup w :
edits fs = l1 ++ e1 :: l2 ++ e2 :: l3 →
file_path e2 = file_path e1 →
spans_overlap c e1 e2 →
(snapshot !! file_path e1 = Some c →
 is_applicable (validate checker snapshot fs) = false) ∧
(tree w !! file_path e1 = Some c →
 (apply checker fs create_backup w).2 = w ∧
 status (apply checker fs create_backup w).1 = RolledBack ∧
 succeeded (apply checker fs create_backup w).1 = []).
Proof.
intros Hedits Hpath Hoverlap.
assert (file_path e1 ∈ touched fs) as Htouched.
{ apply elem_of_touched. exists e1. split; [|done].
  rewrite Hedits. apply elem_of_app. right. left. }
assert (∀ s, s !! file_path e1 = Some c →
          is_applicable (validate checker s fs) = false) as Hrejected.
{ intros s Hs. apply is_applicable_false with (p := file_path e1); [done |].
  unfold file_conflicts. rewrite Hs.
  apply overlap_detected with (e1 := e1) (e2 := e2); [|done].
  unfold edits_of. apply before_filter; [|done..].
  rewrite Hedits. by exists l1, l2, l3. }
split; [apply Hrejected |].
intros Hfile. apply apply_rejected, Hrejected.
by rewrite lookup_take_snapshot, decide_True.
Qed.

(** C3, amended: with a backup taken and every restoration succeeding,
  when the write of the k-th file (in path order) fails, the k-1 files
  written before it are put back, so that every file holds what it held
  before the apply, and the files from the k-th on are never written. *)
Theorem rollback_restores_mutated_files fs w pre p post :
touched fs = pre ++ p :: post →
is_applicable (validate checker (take_snapshot fs w) fs) = true →
(∀ n, n < length (touched fs) + length pre → upcoming w n = false) →
upcoming w (length (touched fs) + length pre) = true →
(∀ n, n < length pre →
      upcoming w (length (touched fs) + length pre + 1 + n) = false) →
let r := apply checker fs true w in
status r.1 = Partial ∧
succeeded r.1 = pre ∧ failed r.1 = [p] ∧
rolled_back r.1 = pre ∧ restore_failed r.1 = [] ∧
tree r.2 = tree w ∧
journal r.2 = journal w ++ (Mutated <$> pre) ++ (Restored <$> pre) ∧
(∀ q, q ∈ p :: post → q ∉ pre).
Proof.
intros Htouched Happ Hbefore Hfail Hafter r.
assert (∀ n, n < length (touched fs) → upcoming w n = false) as Hreads.
{ intros n Hn. apply Hbefore. lia. }
destruct (apply_applicable fs true w Happ Hreads) as ([record|] & Hrun & Hbackup);
  [|done].
destruct Hbackup as [_ Hsaved].
assert (∀ q, q ∈ touched fs → is_Some (dry_apply (take_snapshot fs w) fs !! q))
  as Hnew.
{ intros q Hq. destruct (applicable_on_disk fs w q) as (c & _ & ->); by eauto. }
assert (∀ q, q ∈ pre → q ∈ touched fs) as Hpre.
{ intros q Hq. rewrite Htouched. apply elem_of_app. by left. }
assert (∀ q, q ∈ pre → is_Some (tree w !! q)) as Hfiles.
{ intros q Hq. destruct (applicable_on_disk fs w q) as (c & -> & _); by eauto. }
assert (mutate_and_report (dry_apply (take_snapshot fs w) fs) (touched fs)
          (Some record) (later (length (touched fs)) (tree w) [] w) =
        ({| status := Partial;
            per_file := <[ p := FailedIO ]>
                          (list_to_map ((λ q, (q, Applied)) <$> pre));
            succeeded := pre; failed := [p];
            rolled_back := filter (λ q, q ∉ []) pre; restore_failed := [] |},
         later (length (touched fs) + length pre + 1 + length pre)
           (write_all (saved record) pre
              (write_all (dry_apply (take_snapshot fs w) fs) pre (tree w)))
           ((Mutated <$> pre) ++ (Restored <$> pre)) w)) as Hval.
{ unfold mutate_and_report. rewrite Htouched at 1. rewrite mutate_prefix.
  2: { intros q Hq. by apply Hnew, Hpre. }
  2: { intros n Hn. rewrite upcoming_later. apply Hbefore. lia. }
  rewrite later_later. cbn [mutate].
  destruct (Hnew p) as [c Hc]; [rewrite Htouched; apply elem_of_app; right; left |].
  rewrite Hc, write_file_unfold, upcoming_later, Nat.add_0_r, Hfail.
  rewrite later_later, !(right_id_L [] (++)).
  rewrite restore_ok.
  2: { intros q Hq. cbn. rewrite Hsaved by by apply Hpre. by apply Hfiles. }
  2: { intros n Hn. rewrite upcoming_later. by apply Hafter. }
  by rewrite later_later. }
unfold r. rewrite Hrun, Hval.
cbn. do 3 (split; [done |]). split; [apply filter_nothing_lost |].
split; [done |]. split; [|split; [done |]].
- apply map_eq. intros q. rewrite !lookup_write_all.
  destruct (decide (q ∈ pre)) as [Hq|Hq]; [|done].
  rewrite Hsaved by by apply Hpre. by destruct (Hfiles q Hq) as [c' ->].
- intros q Hq Hin. pose proof (NoDup_touched fs) as Hnodup.
  rewrite Htouched in Hnodup. apply NoDup_app in Hnodup as (_ & Hdisjoint & _).
  by apply (Hdisjoint q).
Qed.

End apply_engine.

(** *** The conflict detector *)

Lemma splice_app c cursor l1 x l2 :
  ∃ pre, splice c cursor (l1 ++ x :: l2) =
         pre ++ replacement_text (p_edit x) ++ splice c (p_stop x) l2.
Proof.
  revert cursor. induction l1 as [|y l1 IH]; intros cursor; cbn.
  - by eexists.
  - destruct (IH (p_stop y)) as [pre ->]. eexists.
    by rewrite !(assoc_L (++) _ _ (replacement_text (p_edit x) ++ _)).
Qed.

Lemma elem_of_detect_file c es a b :
  OverlapConflict a b ∈ detect_file c es ↔
  OverlapConflict a b ∈ walk_pairs (sort_by_start (omap (place c) es)).
Proof.
  unfold detect_file. rewrite elem_of_app. split; [|by left].
  intros [?|Hstale]; [done |].
  apply list_elem_of_bind in Hstale as (e & Hin & _). by apply staleness_no_overlap in Hin.
Qed.

(** C5: the detector groups the edits by file, sorts each file's edits by
    resolved start, and reports OverlapConflict(edit_i, edit_j) exactly
    for the adjacent pairs with edit_i.end > edit_j.start; two insertions
    at the same point raise no conflict, and their replacements come out
    in the order the edits have in the fix set. *)
Theorem conflict_detector_walks_sorted_pairs c es :
  let sorted := sort_by_start (omap (place c) es) in
  sorted ≡ₚ omap (place c) es ∧
  StronglySorted by_start sorted ∧
  (∀ a b, OverlapConflict a b ∈ detect_file c es ↔
          ∃ n x y, sorted !! n = Some x ∧ sorted !! S n = Some y ∧
                   p_stop x > p_start y ∧ p_edit x = a ∧ p_edit y = b) ∧
  (∀ snapshot fs a b,
     OverlapConflict a b ∈ detect_conflicts snapshot fs ↔
     ∃ p c', p ∈ touched fs ∧ snapshot !! p = Some c' ∧
             OverlapConflict a b ∈
               detect_file c' (filter (λ e, file_path e = p) (edits fs))) ∧
  (∀ e1 e2 k,
     before e1 e2 es → resolve c e1 = Located k k → resolve c e2 = Located k k →
     (OverlapConflict e1 e2 ∉ detect_file c es) ∧
     (OverlapConflict e2 e1 ∉ detect_file c es) ∧
     ∃ pre mid post,
       dry_apply_file c es =
       pre ++ replacement_text e1 ++ mid ++ replacement_text e2 ++ post).
Proof.
  intros sorted.
  assert (∀ a b, OverlapConflict a b ∈ detect_file c es ↔
            ∃ n x y, sorted !! n = Some x ∧ sorted !! S n = Some y ∧
                     p_stop x > p_start y ∧ p_edit x = a ∧ p_edit y = b) as Hpairs.
  { intros a b. rewrite elem_of_detect_file, elem_of_walk_pairs. fold sorted.
    split; intros (n & x & y & Hx & Hy & H1 & H2).
    - injection H2 as -> ->. by exists n, x, y.
    - destruct H2 as [<- <-]. by exists n, x, y. }
  assert (∀ x, x ∈ sorted → place c (p_edit x) = Some x) as Hplaced.
  { intros x Hx. unfold sorted in Hx. rewrite sort_by_start_Permutation in Hx.
    apply list_elem_of_omap in Hx as (e & _ & He).
    by destruct (place_Some _ _ _ He) as [-> _]. }
  split; [apply sort_by_start_Permutation |].
  split; [apply sort_by_start_sorted |].
  split; [done |]. split.
  - intros snapshot fs a b. unfold detect_conflicts.
    rewrite list_elem_of_bind. split.
    + intros (p & Hin & Hp). unfold file_conflicts in Hin.
      destruct (snapshot !! p) as [c'|] eqn:Hc'; [|by apply elem_of_nil in Hin].
      by exists p, c'.
    + intros (p & c' & Hp & Hc' & Hin). exists p. split; [|done].
      unfold file_conflicts. by rewrite Hc'.
  - intros e1 e2 k Hbefore H1 H2.
    assert (∀ a b x y, x ∈ sorted → y ∈ sorted →
              resolve c a = Located k k → resolve c b = Located k k →
              p_edit x = a → p_edit y = b → ¬ p_stop x > p_start y) as Hsame.
    { intros a b x y Hx Hy Ha Hb <- <-.
      apply Hplaced, place_Some in Hx as [_ Hx].
      apply Hplaced, place_Some in Hy as [_ Hy].
      rewrite Ha in Hx. rewrite Hb in Hy.
      injection Hx as Hx1 Hx2. injection Hy as Hy1 Hy2. lia. }
    split; [|split].
    + rewrite Hpairs. intros (n & x & y & Hx & Hy & Hgt & Hex & Hey).
      by eapply (Hsame e1 e2 x y); eauto using list_elem_of_lookup_2.
    + rewrite Hpairs. intros (n & x & y & Hx & Hy & Hgt & Hex & Hey).
      by eapply (Hsame e2 e1 x y); eauto using list_elem_of_lookup_2.
    + apply place_Located in H1, H2.
      pose proof (before_omap _ _ _ _ _ _ Hbefore H1 H2) as Hb.
      apply sort_by_start_before in Hb as [_ Hb]. specialize (Hb (le_n _)).
      destruct Hb as (s1 & s2 & s3 & Hsorted).
      unfold dry_apply_file. rewrite Hsorted.
      destruct (splice_app c 0 s1 {| p_start := k; p_stop := k; p_edit := e1 |}
                  (s2 ++ {| p_start := k; p_stop := k; p_edit := e2 |} :: s3))
        as [pre ->]. cbn [p_stop p_edit].
      destruct (splice_app c k s2 {| p_start := k; p_stop := k; p_edit := e2 |} s3)
        as [mid ->]. cbn [p_stop p_edit].
      by exists pre, mid, (splice c k s3).
Qed.

(** *** The theorems at work *)

Import Demo.

(** C1, as stated, fails: the fix set has no overlapping and no stale
    edit, it is applicable, and yet, the first write failing, the file
    read back after [apply] is not the dry-apply content. *)
Lemma apply_matches_dry_apply_counterexample :
  let w := project [true] in
  detect_conflicts (take_snapshot fixset_abc w) fixset_abc = [] ∧
  is_applicable (validate no_checker (take_snapshot fixset_abc w) fixset_abc) = true ∧
  dry_apply (take_snapshot fixset_abc w) fixset_abc !! "a.rs"
    = Some ["fn a"; "new a"] ∧
  tree (apply no_checker fixset_abc false w).2 !! "a.rs" = Some ["fn a"; "old a"] ∧
  tree (apply no_checker fixset_abc false w).2 !! "a.rs" ≠
    dry_apply (take_snapshot fixset_abc w) fixset_abc !! "a.rs".
Proof. cbn zeta. repeat split; by vm_compute. Qed.

Lemma apply_matches_dry_apply_witness :
  is_applicable
    (validate no_checker (take_snapshot fixset_abc (project [])) fixset_abc) = true ∧
  status (apply no_checker fixset_abc true (project [])).1 = Committed ∧
  tree (apply no_checker fixset_abc true (project [])).2 !! "c.rs" =
    dry_apply (take_snapshot fixset_abc (project [])) fixset_abc !! "c.rs".
Proof.
  assert (is_applicable
            (validate no_checker (take_snapshot fixset_abc (project [])) fixset_abc)
          = true) as Happ by reflexivity.
  split; [exact Happ |].
  assert (∀ n, n < 2 * length (touched fixset_abc) →
               upcoming (project []) n = false) as Hfaults.
  { intros n _. reflexivity. }
  destruct (apply_matches_dry_apply no_checker fixset_abc true (project [])
              Happ Hfaults) as (Hstatus & _ & Hfiles & _).
  split; [exact Hstatus |].
  apply Hfiles. apply list_elem_of_In. vm_compute. tauto.
Defined.

Lemma overlap_is_rejected_witness :
  spans_overlap main_rs edit_5_8 edit_7_10 ∧
  is_applicable
    (validate no_checker {[ "src/main.rs" := main_rs ]} fixset_overlap) = false.
Proof.
  assert (spans_overlap main_rs edit_5_8 edit_7_10) as Hoverlap.
  { exists 5, 8, 7, 10.
    split; [reflexivity |]. split; [reflexivity |]. split; lia. }
  split; [exact Hoverlap |].
  destruct (overlap_is_rejected no_checker fixset_overlap [] edit_5_8 [] edit_7_10 []
              main_rs {[ "src/main.rs" := main_rs ]} true (project [])
              eq_refl eq_refl Hoverlap) as [Hvalidate _].
  apply Hvalidate. reflexivity.
Defined.

(** C3, as stated, fails: without a backup the files written before the
    failing one keep their new content. *)
Lemma rollback_counterexample :
  let r := apply no_checker fixset_abc false (project [false; false; true]) in
  touched fixset_abc = ["a.rs"; "b.rs"; "c.rs"] ∧
  status r.1 = Partial ∧ failed r.1 = ["c.rs"] ∧
  tree r.2 !! "a.rs" = Some ["fn a"; "new a"] ∧
  tree r.2 !! "a.rs" ≠ tree (project [false; false; true]) !! "a.rs".
Proof. cbn zeta. repeat split; by vm_compute. Qed.

Lemma rollback_restores_mutated_files_witness :
  let w := project [false; false; false; false; false; true] in
  touched fixset_abc = ["a.rs"; "b.rs"] ++ "c.rs" :: [] ∧
  status (apply no_checker fixset_abc true w).1 = Partial ∧
  rolled_back (apply no_checker fixset_abc true w).1 = ["a.rs"; "b.rs"] ∧
  tree (apply no_checker fixset_abc true w).2 = tree w.
Proof.
  cbn zeta.
  assert (touched fixset_abc = ["a.rs"; "b.rs"] ++ "c.rs" :: []) as Htouched
    by reflexivity.
  split; [exact Htouched |].
  set (w := project [false; false; false; false; false; true]).
  assert (is_applicable (validate no_checker (take_snapshot fixset_abc w) fixset_abc)
          = true) as Happ by reflexivity.
  assert (∀ n, n < length (touched fixset_abc) + length ["a.rs"; "b.rs"] →
               upcoming w n = false) as Hbefore.
  { intros n Hn. do 5 (destruct n as [|n]; [reflexivity |]).
    rewrite Htouched in Hn. cbn in Hn. lia. }
  assert (upcoming w (length (touched fixset_abc) + length ["a.rs"; "b.rs"]) = true)
    as Hfail by reflexivity.
  assert (∀ n, n < length ["a.rs"; "b.rs"] →
               upcoming w (length (touched fixset_abc) + length ["a.rs"; "b.rs"]
                           + 1 + n) = false) as Hafter.
  { intros n Hn. do 2 (destruct n as [|n]; [reflexivity |]). cbn in Hn. lia. }
  destruct (rollback_restores_mutated_files no_checker fixset_abc w
              ["a.rs"; "b.rs"] "c.rs" [] Htouched Happ Hbefore Hfail Hafter)
    as (Hstatus & _ & _ & Hrolled & _ & Htree & _).
  split; [exact Hstatus |]. split; [exact Hrolled | exact Htree].
Defined.

(** The example of the design document: writing [c.rs] fails, [a.rs] and
    [b.rs] are restored. *)
Example rollback_example :
  let r := apply no_checker fixset_abc true
             (project [false; false; false; false; false; true]) in
  status r.1 = Partial ∧ failed r.1 = ["c.rs"] ∧ rolled_back r.1 = ["a.rs"; "b.rs"] ∧
  journal r.2 = [Mutated "a.rs"; Mutated "b.rs"; Restored "a.rs"; Restored "b.rs"].
Proof. cbn zeta. repeat split; by vm_compute. Qed.

(** A restoration that fails leaves the file with its new content, and is
    reported. *)
Example restore_failure_example :
  let r := apply no_checker fixset_abc true
             (project [false; false; false; false; false; true; true]) in
  status r.1 = Partial ∧ restore_failed r.1 = ["a.rs"] ∧ rolled_back r.1 = ["b.rs"] ∧
  tree r.2 !! "a.rs" = Some ["fn a"; "new a"].
Proof. cbn zeta. repeat split; by vm_compute. Qed.

Example overlap_example :
  detect_file main_rs [edit_5_8; edit_7_10] = [OverlapConflict edit_5_8 edit_7_10].
Proof. reflexivity. Qed.

Example stale_example :
  detect_file ["fn a"; "changed"] [edit_a] = [StaleEdit "edit-a"].
Proof. reflexivity. Qed.

(** Insertions at the same point come out in fix-set order. *)
Example insertion_order_example :
  detect_file ["fn a"; "old a"] [insert_x; insert_y; edit_a] = [] ∧
  dry_apply_file ["fn a"; "old a"] [insert_x; insert_y; edit_a]
    = ["fn a"; "x"; "y"; "new a"] ∧
  dry_apply_file ["fn a"; "old a"] [insert_y; insert_x; edit_a]
    = ["fn a"; "y"; "x"; "new a"].
Proof. repeat split; reflexivity. Qed.

End FixEngineSpec.

(** ** Part V: more of the binding layer *)

Module PythonApiMore.
Import PythonApi PythonApiSpec FixesMethods.
Local Open Scope py_scope.

Section wrapper.
Context `{Runtime}.


(** X1: an empty [input_data] is no input: the call is the call with
    [None].  Any other input never reaches a process and the call never
    returns: a text that UTF-8 cannot encode raises [UnicodeEncodeError]
    before anything is spawned; otherwise the bytes do not go with
    [text=True], and the call raises the error of [communicate], or that
    of a process that cannot be started. *)
Theorem run_command_empty_input self args w :
  _run_command self args (Some "") w = _run_command self args None w ∧
  ∀ s, s ≠ "" →
    let cmd := command_line self args in
    let r := _run_command self args (Some s) w in
    (∀ out, r.1 ≠ Return out) ∧
    (encode_utf8 s = None →
     r.1 = Raise (UnicodeEncodeError s) ∧
     spawned (events r.2) = spawned (events w) ∧ files r.2 = files w) ∧
    (is_Some (encode_utf8 s) →
     r.1 = match spawn_killed cmd (files w) with
           | Some _ => Raise bytes_input_error
           | None => Raise (start_exn (start_error cmd (files w)))
           end).
Proof.
  split; [done |]. intros s Hs. cbn zeta. rewrite run_command_input by done.
  cbn zeta. destruct (encode_utf8 s) as [bytes|].
  - split; [by destruct (spawn_killed _ _) |].
    split; [done |]. intros _. by destruct (spawn_killed _ _).
  - split; [done |]. split; [|by intros [? ?]]. intros _. cbn.
    split; [done |]. split; [|done].
    rewrite spawned_app. cbn. by rewrite (right_id_L [] (++)).
Qed.



(** X4: like its two siblings, [create_github_pr] performs no file-system
    operation but on its temporary fixes file, and the one process it
    spawns is told that file after [--fixes], last on the command line. *)
Theorem create_github_pr_touches_only_the_fixes_file
    self owner repo branch title fixes w :
  let name := tmp_name (files w) in
  only_fixes_file_effects (create_github_pr self owner repo branch title fixes)
    self (create_github_pr_args owner repo branch title) fixes w ∧
  spawned (events (create_github_pr self owner repo branch title fixes w).2) =
    spawned (events w) ++
    (if fixes_ok fixes
     then [[rust_binary_path self; "--config"; config_path self;
            "github"; "create-pr"; "--owner"; owner; "--repo"; repo;
            "--branch"; branch; "--title"; title; "--fixes"; name]]
     else []).
Proof.
  cbn zeta. rewrite create_github_pr_shape.
  split; [apply with_fixes_file_effects |].
  exact (with_fixes_file_spawned self
           (create_github_pr_args owner repo branch title) fixes w).
Qed.

Lemma fixes_method_shape self fixes m mk_args :
  fixes_method self fixes m mk_args → m = with_fixes_file self mk_args fixes.
Proof. by intros []. Qed.


(** X6: when the process removes the temporary file, the [os.unlink] of
    the [finally] fails and its [FileNotFoundError] is what the call
    raises, whatever the process did: the error of a failed process and
    the result of a successful one are both lost. *)
Theorem removed_fixes_file_masks_the_outcome self fixes m mk_args w :
  fixes_method self fixes m mk_args →
  fixes_ok fixes = true →
  let name := tmp_name (files w) in
  (spawn (command_line self (mk_args name)) None
     (<[name := fixes_text fixes]> (files w))).2 !! name = None →
  (m w).1 = Raise (FileNotFoundError name).
Proof.
  intros ->%fixes_method_shape Hok name Hgone.
  rewrite with_fixes_file_unfold, Hok. cbn zeta. fold name. by rewrite Hgone.
Qed.

End wrapper.

(** *** The theorems at work *)

Import Demo.
#[local] Existing Instance demo_runtime.


Lemma run_command_empty_input_witness :
  "{}" ≠ "" ∧
  (_run_command (tool "ok") ["analyze"; "proj"] (Some "{}") world0).1 =
    Raise bytes_input_error ∧
  (_run_command (tool "nowhere") ["analyze"; "proj"] (Some "{}") world0).1 =
    Raise (FileNotFoundError "nowhere").
Proof.
  assert ("{}" ≠ "") as Hs by discriminate.
  split; [exact Hs |]. split.
  - destruct (run_command_empty_input (tool "ok") ["analyze"; "proj"] world0)
      as [_ Hinput].
    destruct (Hinput "{}" Hs) as (_ & _ & Hraise).
    rewrite Hraise; [reflexivity | by eexists].
  - destruct (run_command_empty_input (tool "nowhere") ["analyze"; "proj"] world0)
      as [_ Hinput].
    destruct (Hinput "{}" Hs) as (_ & _ & Hraise).
    rewrite Hraise; [reflexivity | by eexists].
Defined.


Lemma removed_fixes_file_masks_the_outcome_witness :
  fixes_ok (FixesStr "{}") = true ∧
  (validate_fixes (tool "rm") "proj" (FixesStr "{}") world0).1 =
    Raise (FileNotFoundError (tmp_name (files world0))).
Proof.
  split; [reflexivity |].
  apply (removed_fixes_file_masks_the_outcome (tool "rm") (FixesStr "{}")
           (validate_fixes (tool "rm") "proj" (FixesStr "{}"))
           (validate_fixes_args "proj") world0).
  - constructor.
  - reflexivity.
  - by vm_compute.
Defined.

Example create_github_pr_command_line :
  spawned (events (create_github_pr (tool "ok") "octo" "repo" "fix" "Fix it"
                     (FixesStr "{}") world0).2) =
  [["ok"; "--config"; ".rust-ai-tool.toml"; "github"; "create-pr";
    "--owner"; "octo"; "--repo"; "repo"; "--branch"; "fix"; "--title"; "Fix it";
    "--fixes"; tmp_name (files world0)]].
Proof. by vm_compute. Qed.

End PythonApiMore.

(** ** Part VI: the constructor *)

Module RustAiToolInitSpec.
Import PythonApi PythonApiSpec RustAiToolInit.
Local Open Scope py_scope.

Section constructor.
Context `{Runtime} `{Host}.


Lemma first_existing_hit l1 p l2 w :
  Forall (λ q, files w !! q = None) l1 → is_Some (files w !! p) →
  first_existing (l1 ++ p :: l2) w = (Return (Some p), w).
Proof.
  induction 1 as [|q paths Hq _ IH]; intros Hp; cbn; unfold bind, os_path_exists.
  - by rewrite bool_decide_eq_true_2.
  - rewrite Hq, bool_decide_eq_false_2 by (by intros [? ?]). by apply IH.
Qed.


(** X8: [_find_rust_binary] returns the first of the four build paths
    (release, release [.exe], debug, debug [.exe]) that exists, and then
    spawns nothing and changes nothing. *)
Theorem find_rust_binary_first_candidate l1 p l2 w :
  potential_paths = l1 ++ p :: l2 →
  Forall (λ q, files w !! q = None) l1 →
  is_Some (files w !! p) →
  _find_rust_binary w = (Return p, w).
Proof.
  intros Hpaths Hnone Hp. unfold _find_rust_binary, bind.
  by rewrite Hpaths, first_existing_hit.
Qed.


(** X10: a [RustAiTool] that [__init__] returns has a binary path that
    exists and a configuration path that is the one given, or
    [.rust-ai-tool.toml] when none (or an empty one) was. *)
Theorem init_postcondition rust_binary_path config_path w self w' :
  __init__ rust_binary_path config_path w = (Return self, w') →
  is_Some (files w' !! PythonApi.rust_binary_path self) ∧
  PythonApi.config_path self =
    match config_path with
    | Some c => if decide (c = "") then ".rust-ai-tool.toml" else c
    | None => ".rust-ai-tool.toml"
    end.
Proof.
  unfold __init__, bind. intros Hinit.
  destruct (match truthy rust_binary_path with
            | Some s => ret s | None => _find_rust_binary end w)
    as [[binary|e] w1]; [|done].
  unfold os_path_exists in Hinit.
  destruct (bool_decide_reflect (is_Some (files w1 !! binary))) as [Hsome|]; [|done].
  injection Hinit as <- <-. split; [done |].
  cbn. by destruct config_path as [c|]; [cbn; destruct (decide _) |].
Qed.

(** X11: a binary path given and not empty is taken as it is: nothing is
    looked up, no process is spawned, the world is left as it was, and the
    constructor raises [FileNotFoundError] exactly when no file is at
    that path.  An empty path counts as no path. *)
Theorem init_explicit_path s config_path w :
  s ≠ "" →
  let r := __init__ (Some s) config_path w in
  r.2 = w ∧
  (is_Some (files w !! s) →
   ∃ self, r.1 = Return self ∧ PythonApi.rust_binary_path self = s) ∧
  (files w !! s = None →
   r.1 = Raise (FileNotFoundError ("Rust AI Tool binary not found at " +:+ s))) ∧
  __init__ (Some "") config_path w = __init__ None config_path w.
Proof.
  intros Hs. cbn zeta.
  assert (__init__ (Some s) config_path w =
          ((if bool_decide (is_Some (files w !! s))
            then Return {| PythonApi.rust_binary_path := s;
                           PythonApi.config_path :=
                             default ".rust-ai-tool.toml" (truthy config_path) |}
            else Raise (FileNotFoundError
                          ("Rust AI Tool binary not found at " +:+ s))), w)) as ->.
  { unfold __init__, bind, truthy at 1, ret, raise, os_path_exists.
    rewrite decide_False by done. by destruct (bool_decide _). }
  cbn [fst snd]. split; [done |]. split; [|split; [|done]].
  - intros Hsome. rewrite bool_decide_eq_true_2 by done. by eexists.
  - intros Hnone. rewrite Hnone.
    by rewrite bool_decide_eq_false_2 by (by intros [? ?]).
Qed.

End constructor.

(** *** The theorems at work *)

Import Demo DemoHost.
#[local] Existing Instance demo_host.

Lemma find_rust_binary_first_candidate_witness :
  _find_rust_binary (H := demo_runtime) world_debug =
  (Return "/opt/tool/target/debug/rust-ai-tool", world_debug).
Proof.
  apply (find_rust_binary_first_candidate (H := demo_runtime)
           ["/opt/tool/target/release/rust-ai-tool";
            "/opt/tool/target/release/rust-ai-tool.exe"]
           "/opt/tool/target/debug/rust-ai-tool"
           ["/opt/tool/target/debug/rust-ai-tool.exe"] world_debug).
  - reflexivity.
  - repeat (apply Forall_cons; split; [reflexivity |]). apply Forall_nil_2.
  - vm_compute. by eexists.
Defined.


Lemma init_postcondition_witness :
  __init__ (H := which_runtime) None None world_installed =
    (Return {| rust_binary_path := "/usr/local/bin/rust-ai-tool";
               config_path := ".rust-ai-tool.toml" |},
     (__init__ (H := which_runtime) None None world_installed).2) ∧
  is_Some (files (__init__ (H := which_runtime) None None world_installed).2
             !! "/usr/local/bin/rust-ai-tool").
Proof.
  set (w' := (__init__ (H := which_runtime) None None world_installed).2).
  assert (__init__ (H := which_runtime) None None world_installed =
          (Return {| rust_binary_path := "/usr/local/bin/rust-ai-tool";
                     config_path := ".rust-ai-tool.toml" |}, w')) as Hinit
    by reflexivity.
  split; [exact Hinit |].
  by destruct (init_postcondition (H := which_runtime) None None world_installed
                 _ w' Hinit) as [Hexists _].
Defined.

Lemma init_explicit_path_witness :
  "/opt/tool/target/debug/rust-ai-tool" ≠ "" ∧
  (__init__ (H := demo_runtime) (Some "/opt/tool/target/debug/rust-ai-tool")
     (Some "tool.toml") world_debug).2 = world_debug ∧
  (__init__ (H := demo_runtime) (Some "/usr/bin/other") None world_debug).1 =
    Raise (FileNotFoundError "Rust AI Tool binary not found at /usr/bin/other").
Proof.
  assert ("/opt/tool/target/debug/rust-ai-tool" ≠ "") as Hs by discriminate.
  split; [exact Hs |]. split.
  - by destruct (init_explicit_path (H := demo_runtime)
                   "/opt/tool/target/debug/rust-ai-tool" (Some "tool.toml")
                   world_debug Hs) as [Hworld _].
  - assert ("/usr/bin/other" ≠ "") as Hother by discriminate.
    destruct (init_explicit_path (H := demo_runtime) "/usr/bin/other" None
                world_debug Hother) as (_ & _ & Hraise & _).
    apply Hraise. reflexivity.
Defined.


End RustAiToolInitSpec.

(** ** Part VII: the HTTP client *)

Module ApiClientSpec.
Import PythonApi ApiClient.

Lemma rstrip_slash_app_slash u : rstrip_slash (u +:+ "/") = rstrip_slash u.
Proof.
  induction u as [|ch u IH]; [done |].
  change (String ch u +:+ "/") with (String ch (u +:+ "/")).
  cbn [rstrip_slash]. by rewrite IH.
Qed.

Lemma rstrip_slash_no_trailing_slash s t : rstrip_slash s ≠ t +:+ "/".
Proof.
  revert t. induction s as [|ch s IH]; intros t; cbn [rstrip_slash].
  - by destruct t.
  - destruct (rstrip_slash s) as [|ch' rest] eqn:Hrest.
    + destruct (decide (String ch "" = "/")) as [Hslash|Hslash]; [by destruct t |].
      destruct t as [|ch2 t]; [done |]. cbn. intros [= -> Ht]. by destruct t.
    + destruct t as [|ch2 t]; [done |]. cbn. intros [= -> Ht].
      by apply (IH t).
Qed.

Lemma lstrip_slash_no_leading_slash s t : lstrip_slash s ≠ "/" +:+ t.
Proof.
  induction s as [|ch s IH]; cbn [lstrip_slash]; [done |].
  destruct (decide (String ch "" = "/")) as [Hslash|Hslash]; [done |].
  cbn. intros [= -> _]. done.
Qed.

Section client.
Context `{Runtime} `{Network}.

(** The request [_make_request] builds for one of the four verbs. *)
Lemma make_request_unfold self method endpoint data :
  method ∈ ["GET"; "POST"; "PUT"; "DELETE"] →
  _make_request self method endpoint data =
  send (request_for self method endpoint data).
Proof.
  intros Hverb. unfold _make_request, request_for.
  repeat (apply elem_of_cons in Hverb as [->|Hverb]; [done |]).
  by apply elem_of_nil in Hverb.
Qed.

(** X13: slashes at the join do not matter: the base URL loses its
    trailing slashes when the client is built, the endpoint its leading
    ones when a request is made, so that the two are always joined by
    exactly one slash; a client built from [u/] asked for [/e] does what a
    client built from [u] asked for [e] does. *)
Theorem request_url_ignores_extra_slashes u key method endpoint data :
  _make_request (__init__ (Some (u +:+ "/")) key) method ("/" +:+ endpoint) data =
  _make_request (__init__ (Some u) key) method endpoint data ∧
  (∀ t, api_url (__init__ (Some u) key) ≠ t +:+ "/") ∧
  (∀ t, lstrip_slash endpoint ≠ "/" +:+ t) ∧
  url (request_for (__init__ (Some u) key) method endpoint data) =
    rstrip_slash u +:+ "/" +:+ lstrip_slash endpoint.
Proof.
  split; [|split; [|split]].
  - assert (__init__ (Some (u +:+ "/")) key = __init__ (Some u) key) as ->.
    { unfold __init__.
      change (default "http://localhost:8080" (Some (u +:+ "/"))) with (u +:+ "/").
      by rewrite rstrip_slash_app_slash. }
    done.
  - intros t. apply rstrip_slash_no_trailing_slash.
  - intros t. apply lstrip_slash_no_leading_slash.
  - done.
Qed.

(** X14: a method that is not exactly one of [GET], [POST], [PUT],
    [DELETE] (in capitals) raises [ValueError] and nothing is sent. *)
Theorem unsupported_method_sends_nothing self method endpoint data sent :
  method ∉ ["GET"; "POST"; "PUT"; "DELETE"] →
  _make_request self method endpoint data sent =
  (inl (ValueError ("Unsupported HTTP method: " +:+ method)), sent).
Proof.
  intros Hverb. unfold _make_request.
  repeat (destruct (decide _) as [->|_];
          [exfalso; apply Hverb; by repeat first [left | right] |]).
  done.
Qed.

(** X15: for the four verbs, [_make_request] calls the session once, the
    method of that name, with the data as query parameters for [GET] and
    as JSON body otherwise.  What the call raises is raised; of the
    response it returns (the last one, should the server redirect), a
    status from 400 to 599 raises [HTTPError] whatever the body holds,
    and any other status has the body parsed as JSON. *)
Theorem make_request_outcome self method endpoint data sent :
  method ∈ ["GET"; "POST"; "PUT"; "DELETE"] →
  let request :=
    {| verb := method;
       url := api_url self +:+ "/" +:+ lstrip_slash endpoint;
       headers := session_headers self;
       params := if decide (method = "GET") then data else None;
       json := if decide (method = "GET") then None else data |} in
  let r := _make_request self method endpoint data sent in
  r.2 = sent ++ [request] ∧
  (∀ e, session_request sent request = inl e → r.1 = inl e) ∧
  (∀ response, session_request sent request = inr response →
     (400 ≤ status_code response < 600 →
      r.1 = inl (HTTPError (status_code response))) ∧
     (¬ 400 ≤ status_code response < 600 →
      r.1 = match json_loads (text response) with
            | Some v => inr v
            | None => inl (ResponseJSONDecodeError (text response))
            end)).
Proof.
  intros Hverb request r. unfold r.
  rewrite make_request_unfold by done.
  change (request_for self method endpoint data) with request.
  unfold send. destruct (session_request sent request) as [e|response].
  - split; [done |]. split; [intros e' He'; cbn; congruence | intros ? ?; discriminate].
  - split; [|split; [done |]].
    + destruct (decide (400 ≤ status_code response < 600)); [done |].
      by destruct (json_loads _).
    + intros response' Hresponse. injection Hresponse as <-.
      destruct (decide (400 ≤ status_code response < 600)) as [Herr|Hok].
      * split; [done | by intros ?].
      * split; [by intros ? |]. intros _. by destruct (json_loads _).
Qed.

(** X17: the four public methods of the client call [session.post] once
    each, on [/api/analyze], [/api/validate], [/api/apply] and
    [/api/generate] under the base URL, with their arguments as JSON body
    ([create_backup] true when left out) and no query parameters. *)
Theorem client_methods_post self sent :
  let posts (m : CM pyval) (path : string) (body : pyval) :=
    m sent = send {| verb := "POST"; url := api_url self +:+ "/" +:+ path;
                     headers := session_headers self;
                     params := None; json := Some body |} sent ∧
    (m sent).2 = sent ++ [{| verb := "POST"; url := api_url self +:+ "/" +:+ path;
                             headers := session_headers self;
                             params := None; json := Some body |}] in
  (∀ project_path,
     posts (analyze_project self project_path) "api/analyze"
       (PyDict [("project_path", PyStr project_path)])) ∧
  (∀ project_path fixes,
     posts (validate_fixes self project_path fixes) "api/validate"
       (PyDict [("project_path", PyStr project_path); ("fixes", PyDict fixes)])) ∧
  (∀ project_path fixes create_backup,
     posts (apply_fixes self project_path fixes create_backup) "api/apply"
       (PyDict [("project_path", PyStr project_path); ("fixes", PyDict fixes);
                ("create_backup", PyBool (default true create_backup))])) ∧
  (∀ description output_dir name,
     posts (generate_project self description output_dir name) "api/generate"
       (PyDict [("description", PyStr description);
                ("output_dir", PyStr output_dir); ("name", PyStr name)])).
Proof.
  assert (∀ request, (send request sent).2 = sent ++ [request]) as Hsend.
  { intros request. unfold send. destruct (session_request _ _) as [e|response];
      [done |].
    destruct (decide _); [done |]. by destruct (json_loads _). }
  cbn zeta. repeat split; intros; try apply Hsend; done.
Qed.
End client.

(** *** The theorems at work *)

Import Demo DemoHost.
#[local] Existing Instance demo_runtime.
#[local] Existing Instance demo_network.

Lemma unsupported_method_sends_nothing_witness :
  ("post" ∉ ["GET"; "POST"; "PUT"; "DELETE"]) ∧
  _make_request (__init__ None None) "post" "/api/analyze" None [] =
    (inl (ValueError "Unsupported HTTP method: post"), []).
Proof.
  assert ("post" ∉ ["GET"; "POST"; "PUT"; "DELETE"]) as Hverb.
  { intros Hin. repeat (apply elem_of_cons in Hin as [Hin|Hin]; [discriminate |]).
    by apply elem_of_nil in Hin. }
  split; [exact Hverb |].
  exact (unsupported_method_sends_nothing (__init__ None None) "post"
           "/api/analyze" None [] Hverb).
Defined.

Lemma make_request_outcome_witness :
  "POST" ∈ ["GET"; "POST"; "PUT"; "DELETE"] ∧
  (_make_request (__init__ None None) "POST" "/api/apply"
     (Some (PyDict [])) []).1 = inl (HTTPError 500).
Proof.
  assert ("POST" ∈ ["GET"; "POST"; "PUT"; "DELETE"]) as Hverb by (right; left).
  split; [exact Hverb |].
  pose proof (make_request_outcome (__init__ None None) "POST" "/api/apply"
                (Some (PyDict [])) [] Hverb) as Houtcome.
  cbn zeta in Houtcome. destruct Houtcome as (_ & _ & Hresponse).
  destruct (Hresponse {| status_code := 500; text := "{}" |} ltac:(reflexivity))
    as [Herr _].
  apply Herr. cbn. lia.
Defined.

Example client_analyze_example :
  let client := __init__ (Some "http://localhost:8080///") None in
  api_url client = "http://localhost:8080" ∧
  (analyze_project client "proj" []).1 = inr (PyDict []) ∧
  (apply_fixes client "proj" [] None []).1 = inl (HTTPError 500) ∧
  (generate_project client "a tool" "out" "csv2json" []).1 = inl (HTTPError 404) ∧
  (analyze_project (__init__ (Some "http://down") None) "proj" []).1 =
    inl (RequestException "ConnectionError" "http://down/api/analyze").
Proof. cbn zeta. repeat split; reflexivity. Qed.

(** An exception of the library that [except ValueError] catches, as it
    does the one [_make_request] raises itself. *)
Example client_value_errors :
  let r := (analyze_project (__init__ (Some "localhost:8080") None) "proj" []).1 in
  r = inl (RequestException "MissingSchema" "localhost:8080/api/analyze") ∧
  (∀ e, r = inl e → is_ValueError e = true) ∧
  is_ValueError (ValueError "Unsupported HTTP method: post") = true ∧
  is_ValueError (HTTPError 500) = false.
Proof.
  cbn zeta. split; [reflexivity |]. split; [|split; reflexivity].
  intros e Heq. injection Heq as <-. reflexivity.
Qed.

End ApiClientSpec.
